(** * Task organisation and status derivation of the task view

    A shallow embedding of [src/taskOrganizer.ts]: the classifier
    [organizeTasks] and the status deriver [createTaskStatuses]; of the
    data-dependent parts of the view template that consumes their results;
    and of the message handler of [src/taskViewProvider.ts] with the click
    handler of the view script that feeds it.

    Modelling conventions.
    - A [vscode.Task] is a record of the fields the module reads ([name],
      [source], [group]) and of its [definition] mapping, which the module
      carries along without reading it.
    - An optional field is an [option]; JavaScript truthiness of a string is
      "not the empty string", of an absent field [false], of an object or an
      array [true].
    - A [Record<string, T>] is a plain object [{}]: a finite map
      [gmap string T] of its own properties, read through the property
      names it inherits from [Object.prototype] ([JsObject.get]).  An
      inherited value is truthy and has none of the properties the code
      goes on to read, so the code throws a [TypeError] when it uses one
      as an entry.
    - A function that can throw returns an [option]: [None] is the thrown
      [TypeError].
    - [Array.prototype.push] appends at the end of a list; [forEach] is a
      left fold over the input list that threads the mutated objects and
      stops at the first exception. *)

From stdpp Require Import strings list gmap.

Set Warnings "-clear-no-such-hyp".

Open Scope string_scope.
Open Scope list_scope.

(** ** JavaScript values read by the module *)

Module Js.

(** Truthiness of a string value. *)
Definition truthy (s : string) : bool := bool_decide (s ≠ "").

(** Truthiness of an optional string field ([undefined] is falsy). *)
Definition truthy_opt (o : option string) : bool :=
  match o with
  | Some s => truthy s
  | None => false
  end.

(** [o || d] for an optional string [o] and a string [d]. *)
Definition or_else (o : option string) (d : string) : string :=
  match o with
  | Some s => if truthy s then s else d
  | None => d
  end.

(** [o === s] for an optional string [o] and a string literal [s]. *)
Definition strict_eq (o : option string) (s : string) : bool :=
  bool_decide (o = Some s).

End Js.

(** ** Plain objects used as dictionaries *)

Module JsObject.

(** The property names every plain object inherits from
    [Object.prototype]. *)
Definition prototypeKeys : list string :=
  ["constructor"; "__defineGetter__"; "__defineSetter__"; "hasOwnProperty";
   "__lookupGetter__"; "__lookupSetter__"; "isPrototypeOf";
   "propertyIsEnumerable"; "toString"; "valueOf"; "__proto__";
   "toLocaleString"].

Definition inherited (k : string) : bool := bool_decide (k ∈ prototypeKeys).

(** What [obj[k]] evaluates to, for an object of own properties [obj]: an
    own value, a value inherited from [Object.prototype] (a function, or
    the prototype itself for "__proto__"), or [undefined]. *)
Inductive Property (V : Type) : Type :=
  | Own (v : V)
  | Inherited
  | Undefined.

Arguments Own {V} v.
Arguments Inherited {V}.
Arguments Undefined {V}.

(** [obj[k]] *)
Definition get {V : Type} (obj : gmap string V) (k : string) : Property V :=
  match obj !! k with
  | Some v => Own v
  | None => if inherited k then Inherited else Undefined
  end.

(** [!obj[k]]: the own values of the dictionaries of this program
    (objects, arrays, non-empty strings) and the inherited values are all
    truthy. *)
Definition falsy {V : Type} (p : Property V) : bool :=
  match p with
  | Undefined => true
  | Own _ => false
  | Inherited => false
  end.

(** [obj[k] = v] for a primitive [v]: the own property is created or
    overwritten, except that the setter of "__proto__" ignores a
    primitive. *)
Definition setPrimitive {V : Type} (k : string) (v : V)
    (obj : gmap string V) : gmap string V :=
  if bool_decide (k = "__proto__") then obj else <[k := v]> obj.

End JsObject.

(** [array.forEach(body)] on a body that threads a state and can throw. *)
Fixpoint forEach {A S : Type} (body : S → A → option S) (s : S)
    (l : list A) : option S :=
  match l with
  | [] => Some s
  | x :: l => s' ← body s x; forEach body s' l
  end.

(** ** Data model *)

(** The [group] field when present: a plain string, or a structured value
    exposing an optional [id]. *)
Inductive GroupField : Type :=
  | GroupPlain (s : string)
  | GroupStructured (id : option string).

Record Task : Type := mkTask {
  name : string;
  source : option string;
  group : option GroupField;
  definition : gmap string string
}.

(** [vscode.TaskExecution]: a reference to the task being run. *)
Record TaskExecution : Type := mkTaskExecution {
  task : Task
}.

(** [interface TaskGroup] *)
Record TaskGroup : Type := mkTaskGroup {
  tasks : list Task;
  subGroups : gmap string (list Task)
}.

(** [interface OrganizedTasks] *)
Record OrganizedTasks : Type := mkOrganizedTasks {
  workspaceTasks : list Task;
  sourceGroups : gmap string TaskGroup
}.

(** [type TaskStatus = 'grey' | 'green' | 'yellow' | 'red'] *)
Inductive TaskStatus : Type := grey | green | yellow | red.

#[global] Instance GroupField_eq_dec : EqDecision GroupField.
Proof. solve_decision. Defined.

#[global] Instance Task_eq_dec : EqDecision Task.
Proof. solve_decision. Defined.

#[global] Instance TaskStatus_eq_dec : EqDecision TaskStatus.
Proof. solve_decision. Defined.

(** ** The classifier *)

(** [function isWorkspaceTask]:
    [task.source === 'Workspace' || !task.source]. *)
Definition isWorkspaceTask (t : Task) : bool :=
  Js.strict_eq (source t) "Workspace" || negb (Js.truthy_opt (source t)).

(** [function extractTaskGroupName]: [None] is the [null] result. *)
Definition extractTaskGroupName (t : Task) : option string :=
  match group t with
  | None => None
  | Some (GroupPlain s) => if Js.truthy s then Some s else None
  | Some (GroupStructured id) => Some (Js.or_else id "build")
  end.

(** [array.push(task)] *)
Definition push (l : list Task) (t : Task) : list Task := l ++ [t].

(** The fresh object [{ tasks: [], subGroups: {} }]. *)
Definition emptyGroup : TaskGroup := mkTaskGroup [] ∅.

(** [if (!obj[k]) { obj[k] = v }] for a fresh object or array [v].  The
    assignment is reached only when [obj[k]] is [undefined], so [k] is no
    inherited name and the assignment creates the own property. *)
Definition initKey {V : Type} (k : string) (v : V) (obj : gmap string V)
  : gmap string V :=
  if JsObject.falsy (JsObject.get obj k) then <[k := v]> obj else obj.

(** [obj[k].push(task)] on a dictionary of arrays: the array is extended
    in place when [obj[k]] is an own array; an inherited value has no
    [push] and [undefined] has no property, so the call throws. *)
Definition pushAt (k : string) (t : Task) (obj : gmap string (list Task))
  : option (gmap string (list Task)) :=
  match JsObject.get obj k with
  | JsObject.Own l => Some (<[k := push l t]> obj)
  | JsObject.Inherited => None
  | JsObject.Undefined => None
  end.

(** The [if (taskGroupName) ... else ...] statement of
    [organizeProviderTask], acting on the group object [g] of the source:
    a truthy name selects the sub-group list of that name, created on first
    use; [null] or a falsy name selects the direct list. *)
Definition addToGroup (t : Task) (taskGroupName : option string)
    (g : TaskGroup) : option TaskGroup :=
  let direct := Some (mkTaskGroup (push (tasks g) t) (subGroups g)) in
  match taskGroupName with
  | Some n =>
      if Js.truthy n then
        subGroups' ← pushAt n t (initKey n [] (subGroups g));
        Some (mkTaskGroup (tasks g) subGroups')
      else direct
  | None => direct
  end.

(** [function organizeProviderTask]: the mutation of [sourceGroups] is the
    returned map.  When [sourceGroups[source]] is an inherited value, its
    [subGroups] and [tasks] are [undefined] and either branch throws. *)
Definition organizeProviderTask (t : Task)
    (sourceGroups : gmap string TaskGroup)
  : option (gmap string TaskGroup) :=
  let source := Js.or_else (source t) "Unknown" in
  let sourceGroups := initKey source emptyGroup sourceGroups in
  let taskGroupName := extractTaskGroupName t in
  match JsObject.get sourceGroups source with
  | JsObject.Own g =>
      g' ← addToGroup t taskGroupName g;
      Some (<[source := g']> sourceGroups)
  | JsObject.Inherited => None
  | JsObject.Undefined => None
  end.

(** The body of the [forEach] callback of [organizeTasks]. *)
Definition organizeStep (acc : OrganizedTasks) (t : Task)
  : option OrganizedTasks :=
  if isWorkspaceTask t then
    Some (mkOrganizedTasks (push (workspaceTasks acc) t) (sourceGroups acc))
  else
    sourceGroups' ← organizeProviderTask t (sourceGroups acc);
    Some (mkOrganizedTasks (workspaceTasks acc) sourceGroups').

(** [function organizeTasks] *)
Definition organizeTasks (ts : list Task) : option OrganizedTasks :=
  forEach organizeStep (mkOrganizedTasks [] ∅) ts.

(** ** The status deriver *)

(** [executions.some(execution => execution.task.name === task.name)] *)
Definition isRunning (executions : list TaskExecution) (t : Task) : bool :=
  existsb (fun execution => bool_decide (name (task execution) = name t))
    executions.

(** The body of the [forEach] callback of [createTaskStatuses]:
    [taskStatuses[task.name] = isRunning ? 'yellow' : 'grey']. *)
Definition statusStep (executions : list TaskExecution)
    (taskStatuses : gmap string TaskStatus) (t : Task)
  : gmap string TaskStatus :=
  JsObject.setPrimitive (name t)
    (if isRunning executions t then yellow else grey) taskStatuses.

(** [function createTaskStatuses] *)
Definition createTaskStatuses (ts : list Task)
    (executions : list TaskExecution) : gmap string TaskStatus :=
  foldl (statusStep executions) ∅ ts.

(** ** Sample descriptors *)

Module Samples.

Definition lint : Task := mkTask "lint" (Some "npm") (Some (GroupPlain "test")) ∅.
Definition compile : Task := mkTask "compile" (Some "npm") None ∅.
Definition dev : Task := mkTask "dev" None None ∅.

(** Three tasks named A, B and C. *)
Definition taskA : Task := mkTask "A" (Some "npm") None ∅.
Definition taskB : Task := mkTask "B" (Some "npm") None ∅.
Definition taskC : Task := mkTask "C" (Some "npm") None ∅.

(** A task whose source is present and empty. *)
Definition blankSource : Task := mkTask "blank" (Some "") None ∅.

(** A task whose source differs from the sentinel by case only. *)
Definition lowerCase : Task := mkTask "lower" (Some "workspace") None ∅.

(** Provider tasks whose group is the empty plain string, and a
    structured value whose id is the empty string. *)
Definition blankGroup : Task :=
  mkTask "bg" (Some "npm") (Some (GroupPlain "")) ∅.
Definition blankGroupId : Task :=
  mkTask "bid" (Some "npm") (Some (GroupStructured (Some ""))) ∅.

(** Tasks whose source, group or name is a property name inherited from
    [Object.prototype]. *)
Definition constructorSource : Task :=
  mkTask "ctor" (Some "constructor") None ∅.
Definition toStringGroup : Task :=
  mkTask "ts" (Some "npm") (Some (GroupPlain "toString")) ∅.
Definition constructorBlankGroup : Task :=
  mkTask "cbg" (Some "constructor") (Some (GroupPlain "")) ∅.
Definition protoName : Task := mkTask "__proto__" (Some "npm") None ∅.

End Samples.

(** ** Specification vocabulary *)

(** The effective source key of [organizeProviderTask]:
    [task.source || 'Unknown']. *)
Definition sourceKey (t : Task) : string := Js.or_else (source t) "Unknown".

(** The three kinds of destination of a task in an organized result. *)
Inductive Bucket : Type :=
  | InWorkspace
  | InSource (s : string)
  | InSubGroup (s n : string).

#[global] Instance Bucket_eq_dec : EqDecision Bucket.
Proof. solve_decision. Defined.

(** The destination the code selects for a task: the branch of
    [organizeTasks] taken, the source key, and the branch of
    [organizeProviderTask] taken. *)
Definition bucketOf (t : Task) : Bucket :=
  if isWorkspaceTask t then InWorkspace
  else
    match extractTaskGroupName t with
    | Some n => if Js.truthy n then InSubGroup (sourceKey t) n
                else InSource (sourceKey t)
    | None => InSource (sourceKey t)
    end.

(** The list an organized result holds at a destination (empty when the
    key of the destination is absent). *)
Definition bucket (o : OrganizedTasks) (b : Bucket) : list Task :=
  match b with
  | InWorkspace => workspaceTasks o
  | InSource s => from_option tasks [] (sourceGroups o !! s)
  | InSubGroup s n =>
      default [] (sourceGroups o !! s ≫= fun g => subGroups g !! n)
  end.

(** [t] is in the direct list of the entry of source [s]. *)
Definition inDirectTasks (o : OrganizedTasks) (s : string) (t : Task) : Prop :=
  ∃ g, sourceGroups o !! s = Some g ∧ t ∈ tasks g.

(** [t] is in the sub-group list [n] of the entry of source [s]. *)
Definition inSubGroup (o : OrganizedTasks) (s n : string) (t : Task) : Prop :=
  ∃ g l, sourceGroups o !! s = Some g ∧ subGroups g !! n = Some l ∧ t ∈ l.

(** All the lists of a dictionary, one after the other. *)
Definition flatten {V : Type} (f : V → list Task) (m : gmap string V)
  : list Task :=
  mjoin (f <$> (map_to_list m).*2).

(** Every task held by a source entry: direct list, then sub-group lists. *)
Definition groupTasks (g : TaskGroup) : list Task :=
  tasks g ++ flatten id (subGroups g).

(** Every task held by an organized result, bucket after bucket. *)
Definition allTasks (o : OrganizedTasks) : list Task :=
  workspaceTasks o ++ flatten groupTasks (sourceGroups o).

(** [|tasks| + Σ over subGroups of |list|] *)
Definition groupCount (g : TaskGroup) : nat :=
  length (tasks g) + sum_list (length <$> (map_to_list (subGroups g)).*2).

(** [|workspaceTasks| + Σ over sourceGroups of (|tasks| + Σ ...)] *)
Definition taskCount (o : OrganizedTasks) : nat :=
  length (workspaceTasks o)
  + sum_list (groupCount <$> (map_to_list (sourceGroups o)).*2).

(** The status the deriver assigns to a task. *)
Definition statusOf (executions : list TaskExecution) (t : Task)
  : TaskStatus :=
  if isRunning executions t then yellow else grey.

(** The task makes the classifier read an inherited property as an
    entry: it is routed to the provider path and its source key, or its
    group name, is inherited from [Object.prototype]. *)
Definition touchesInherited (t : Task) : bool :=
  negb (isWorkspaceTask t)
  && (JsObject.inherited (sourceKey t)
      || from_option JsObject.inherited false (extractTaskGroupName t)).

(** No own key of the result, source or sub-group name, is a name
    inherited from [Object.prototype]. *)
Definition noInheritedKey (o : OrganizedTasks) : Prop :=
  (∀ s, s ∈ dom (sourceGroups o) → JsObject.inherited s = false)
  ∧ ∀ s g n, sourceGroups o !! s = Some g → n ∈ dom (subGroups g) →
             JsObject.inherited n = false.

(** A list [l] is the stable selection of bucket [b] from [ts]: exactly the
    tasks of [ts] destined to [b], in the order of [ts]. *)
Definition stableSelection (ts : list Task) (b : Bucket) (l : list Task)
  : Prop :=
  l = filter (fun t => bucketOf t = b) ts ∧ l `sublist_of` ts.

(** ** The view template ([htmlTemplate], imported by the provider)

    The data-dependent parts of [generateTaskViewHtml]: the status and the
    display name of a task item, the grouping of the workspace tasks, and
    the counts shown beside a source.  The markup itself is not modelled. *)

Module HtmlTemplate.

(** [interface TaskViewSettings] *)
Record TaskViewSettings : Type := mkTaskViewSettings {
  showTooltips : bool;
  showGroupTooltips : bool;
  showSubgroupTooltips : bool;
  requireGroupConfirmation : bool;
  requireSubgroupConfirmation : bool;
  showTaskCounts : bool
}.

(** The values [status] can take: a status string, or an object inherited
    from [Object.prototype]. *)
Inductive StatusValue : Type :=
  | StatusTag (st : TaskStatus)
  | NotAStatus.

(** [const status = taskStatuses[task.name] || 'grey'] of [renderTaskItem];
    the four status strings and the inherited values are truthy. *)
Definition status (taskStatuses : gmap string TaskStatus) (t : Task)
  : StatusValue :=
  match JsObject.get taskStatuses (name t) with
  | JsObject.Own st => StatusTag st
  | JsObject.Inherited => NotAStatus
  | JsObject.Undefined => StatusTag grey
  end.

(** [const displayName = (task.source && task.source !== 'Workspace')
      ? `${task.source}: ${task.name}` : task.name] *)
Definition displayName (t : Task) : string :=
  match source t with
  | Some s =>
      if Js.truthy s && negb (bool_decide (s = "Workspace"))
      then s +:+ ": " +:+ name t
      else name t
  | None => name t
  end.

#[global] Instance StatusValue_eq_dec : EqDecision StatusValue.
Proof. solve_decision. Defined.

(** [const statusColor = status === 'green' ? ... : '#6b7280'] *)
Definition statusColor (v : StatusValue) : string :=
  if decide (v = StatusTag green) then "#22c55e80"
  else if decide (v = StatusTag red) then "#ef444480"
  else if decide (v = StatusTag yellow) then "#eab308"
  else "#6b7280".

(** The test [if (task.group)] on the group field. *)
Definition groupTruthy (g : option GroupField) : bool :=
  match g with
  | None => false
  | Some (GroupPlain s) => Js.truthy s
  | Some (GroupStructured _) => true
  end.

(** The local [taskGroupName] of the workspace grouping loop: [null], then
    assigned under [if (task.group)] from the string or from
    [task.group.id || 'build']. *)
Definition taskGroupName (t : Task) : option string :=
  if groupTruthy (group t) then
    match group t with
    | Some (GroupPlain s) => Some s
    | Some (GroupStructured id) => Some (Js.or_else id "build")
    | None => None
    end
  else None.

(** The two locals the workspace grouping loop fills. *)
Record WorkspaceGrouping : Type := mkWorkspaceGrouping {
  workspaceGroups : gmap string (list Task);
  ungroupedWorkspaceTasks : list Task
}.

(** The body of the callback of [workspaceTasks.forEach]. *)
Definition groupWorkspaceStep (acc : WorkspaceGrouping) (t : Task)
  : option WorkspaceGrouping :=
  let ungrouped :=
    Some (mkWorkspaceGrouping (workspaceGroups acc)
            (push (ungroupedWorkspaceTasks acc) t)) in
  match taskGroupName t with
  | Some n =>
      if Js.truthy n then
        workspaceGroups' ← pushAt n t (initKey n [] (workspaceGroups acc));
        Some (mkWorkspaceGrouping workspaceGroups'
                (ungroupedWorkspaceTasks acc))
      else ungrouped
  | None => ungrouped
  end.

(** The workspace grouping loop of [generateTaskViewHtml]. *)
Definition groupWorkspaceTasks (ws : list Task) : option WorkspaceGrouping :=
  forEach groupWorkspaceStep (mkWorkspaceGrouping ∅ []) ws.

(** The predicate of the [filter] over [Object.entries(sourceGroups)]:
    [group.tasks.length > 0 || Object.keys(group.subGroups).length > 0]. *)
Definition isRendered (g : TaskGroup) : bool :=
  bool_decide (0 < length (tasks g))%nat
  || bool_decide (0 < size (subGroups g))%nat.

(** [const totalCount =
      group.tasks.length + Object.keys(group.subGroups).length] *)
Definition totalCount (g : TaskGroup) : nat :=
  length (tasks g) + size (subGroups g).

(** [const totalTaskCount = allSourceTasks.length], where [allSourceTasks]
    is [[...group.tasks, ...Object.values(group.subGroups).flat()]]. *)
Definition totalTaskCount (g : TaskGroup) : nat :=
  length (tasks g ++ mjoin (map_to_list (subGroups g)).*2).

End HtmlTemplate.

(** ** The provider ([taskViewProvider.ts])

    The host ([vscode.tasks], [vscode.window], [console]) is a snapshot the
    handler reads and a list of the calls the handler makes on it, in
    order.  Host calls are taken to return normally. *)

Module TaskViewProvider.

(** [interface WebviewMessage]; the fields are prefixed because [name],
    [group] and [source] are fields of a task. [None] is [null] or
    [undefined]. *)
#[warnings="-register-all"]
Inductive WebviewMessage : Type := mkWebviewMessage {
  msg_command : option string;
  msg_name : option string;
  msg_group : option string;
  msg_source : option string;
  msg_groupType : option string;
  msg_title : option string;
  msg_message : option string;
  msg_originalCommand : option WebviewMessage
}.

(** What the handler reads from the host: the result of
    [vscode.tasks.fetchTasks()], [vscode.tasks.taskExecutions], and the
    button the user picks in a modal dialog ([None]: dismissed). *)
Record Host : Type := mkHost {
  fetchTasks : list Task;
  taskExecutions : list TaskExecution;
  dialogResult : option string
}.

(** The calls the handler makes on the host. *)
Inductive HostCall : Type :=
  | ExecuteTask (t : Task)
  | Terminate (te : TaskExecution)
  | ShowModalDialog (text : string)
  | ShowInformationMessage (text : string)
  | ConsoleWarn (command : option string).

(** The double-quote character of the message templates. *)
Definition dquote : string := String (Ascii.ascii_of_nat 34) EmptyString.

(** [findTaskByName]: [tasks.find(task => task.name === name)]. *)
Definition findTaskByName (fetched : list Task) (n : string) : option Task :=
  find (fun t => bool_decide (name t = n)) fetched.

(** [task.group?.id]: absent for an absent group and for a plain
    string. *)
Definition groupId (t : Task) : option string :=
  match group t with
  | Some (GroupStructured id) => id
  | Some (GroupPlain _) => None
  | None => None
  end.

(** [task.definition?.type] *)
Definition definitionType (t : Task) : option string :=
  definition t !! "type".

(** [getTasksForGroup], on the fetched task list. *)
Definition getTasksForGroup (fetched : list Task) (command : option string)
    (groupName : string) : list Task :=
  if Js.strict_eq command "runGroup" then
    filter (fun t => groupId t = Some groupName) fetched
  else if Js.strict_eq command "runSubGroup" then
    filter (fun t => definitionType t = Some groupName
                     ∨ source t = Some groupName) fetched
  else if Js.strict_eq command "runSourceGroup" then
    filter (fun t => source t = Some groupName) fetched
  else [].

(** [executeGroupRun]: returns at once on a falsy [message.name], else
    executes the tasks of the group one after the other. *)
Definition executeGroupRun (host : Host) (m : WebviewMessage)
  : list HostCall :=
  match msg_name m with
  | Some n =>
      if Js.truthy n
      then ExecuteTask <$> getTasksForGroup (fetchTasks host) (msg_command m) n
      else []
  | None => []
  end.

(** [handleWebviewMessage]: the [switch] on [message.command]. *)
Definition handleWebviewMessage (host : Host) (m : WebviewMessage)
  : list HostCall :=
  let c := msg_command m in
  if Js.strict_eq c "runTask" then
    match msg_name m with
    | Some n =>
        if Js.truthy n then
          match findTaskByName (fetchTasks host) n with
          | Some t => [ExecuteTask t]
          | None => []
          end
        else []
    | None => []
    end
  else if Js.strict_eq c "terminateTask" then
    match msg_name m with
    | Some n =>
        if Js.truthy n then
          Terminate
            <$> filter (fun te => name (task te) = n) (taskExecutions host)
        else []
    | None => []
    end
  else if Js.strict_eq c "runGroup" || Js.strict_eq c "runSubGroup"
          || Js.strict_eq c "runSourceGroup" then
    executeGroupRun host m
  else if Js.strict_eq c "showConfirmation" then
    match msg_message m with
    | Some text =>
        if Js.truthy text then
          ShowModalDialog text
          :: (if Js.strict_eq (dialogResult host) "Yes" then
                match msg_originalCommand m with
                | Some original => executeGroupRun host original
                | None => []
                end
              else [])
        else []
    | None => []
    end
  else if Js.strict_eq c "pauseTask" then
    match msg_name m with
    | Some n =>
        if Js.truthy n then
          [ShowInformationMessage
             ("Pause not implemented for " +:+ dquote +:+ n +:+ dquote)]
        else []
    | None => []
    end
  else [ConsoleWarn c].

End TaskViewProvider.

(** ** The click handler of the view script ([getTaskViewScript]) *)

Module WebviewScript.

(** The [data-] attributes the handler reads with [getAttribute]; [None]
    is the [null] of a missing attribute. *)
Record ActionButton : Type := mkActionButton {
  data_command : option string;
  data_task : option string;
  data_group : option string;
  data_source : option string;
  data_group_type : option string
}.

(** [a || b] on attribute values. *)
Definition or_attr (a b : option string) : option string :=
  if Js.truthy_opt a then a else b.

(** A value interpolated in a template string. *)
Definition interpolate (o : option string) : string := default "null" o.

(** [command === 'runGroup' || command === 'runSubGroup'
     || command === 'runSourceGroup'] *)
Definition isGroupRun (command : option string) : bool :=
  Js.strict_eq command "runGroup" || Js.strict_eq command "runSubGroup"
  || Js.strict_eq command "runSourceGroup".

(** [const requireConfirmation], with the two settings written into the
    script. *)
Definition requireConfirmation (settings : HtmlTemplate.TaskViewSettings)
    (command : option string) : bool :=
  (Js.strict_eq command "runGroup"
   && HtmlTemplate.requireGroupConfirmation settings)
  || ((Js.strict_eq command "runSubGroup"
       || Js.strict_eq command "runSourceGroup")
      && HtmlTemplate.requireSubgroupConfirmation settings).

(** The click listener of [button.action, .toggle-btn]: the message it
    posts to the provider, if any. *)
Definition onActionClick (settings : HtmlTemplate.TaskViewSettings)
    (shiftKey : bool) (btn : ActionButton)
  : option TaskViewProvider.WebviewMessage :=
  let command := data_command btn in
  let task := data_task btn in
  let group := data_group btn in
  let source := data_source btn in
  let groupType := data_group_type btn in
  let plain :=
    TaskViewProvider.mkWebviewMessage command task group source groupType
      None None None in
  if isGroupRun command
     && (negb shiftKey && requireConfirmation settings command) then
    Some (TaskViewProvider.mkWebviewMessage (Some "showConfirmation")
            None None None None (Some "Run All Tasks")
            (Some ("Run all tasks in " +:+ TaskViewProvider.dquote
                   +:+ interpolate (or_attr group source)
                   +:+ TaskViewProvider.dquote +:+ "?"))
            (Some plain))
  else if Js.truthy_opt command || Js.truthy_opt task || Js.truthy_opt group
  then Some plain
  else None.

End WebviewScript.

(** ** A snapshot used to instantiate the properties *)

Module Scenario.

Definition snapshot : list Task :=
  [Samples.lint; Samples.compile; Samples.dev].

(** The entry the classifier builds for the source npm of the snapshot. *)
Definition npmEntry : TaskGroup :=
  mkTaskGroup [Samples.compile] {[ "test" := [Samples.lint] ]}.

(** The result of the classifier on the snapshot. *)
Definition organized : OrganizedTasks :=
  mkOrganizedTasks [Samples.dev] {[ "npm" := npmEntry ]}.

Definition executions : list TaskExecution := [mkTaskExecution Samples.lint].

Definition host : TaskViewProvider.Host :=
  TaskViewProvider.mkHost snapshot executions (Some "Yes").

(** The run button of the source npm: no [data-task] attribute. *)
Definition runSourceButton : WebviewScript.ActionButton :=
  WebviewScript.mkActionButton (Some "runSourceGroup") None None
    (Some "npm") None.

Definition settings : HtmlTemplate.TaskViewSettings :=
  HtmlTemplate.mkTaskViewSettings true true true true true true.

End Scenario.

(** ** End-to-end scenario *)

Example end_to_end_organize :
  organizeTasks [Samples.lint; Samples.compile; Samples.dev]
  = Some (mkOrganizedTasks [Samples.dev]
            {[ "npm" := mkTaskGroup [Samples.compile]
                          {[ "test" := [Samples.lint] ]} ]}).
Proof. vm_compute. reflexivity. Qed.

Example end_to_end_statuses :
  createTaskStatuses [Samples.lint; Samples.compile; Samples.dev]
    [mkTaskExecution Samples.lint]
  = {[ "lint" := yellow; "compile" := grey; "dev" := grey ]}.
Proof. vm_compute. reflexivity. Qed.

Example lower_case_source :
  organizeTasks [Samples.lowerCase]
  = Some (mkOrganizedTasks []
            {[ "workspace" := mkTaskGroup [Samples.lowerCase] ∅ ]}).
Proof. vm_compute. reflexivity. Qed.

Example inherited_group_throws :
  organizeTasks [Samples.toStringGroup] = None.
Proof. vm_compute. reflexivity. Qed.

(** ** Dictionaries: reading through the prototype, initialisation on first
    use and update in place *)

Section Dictionary.
Context {V : Type}.
Implicit Types (m : gmap string V) (k : string) (v : V).

Lemma get_Own m k v : JsObject.get m k = JsObject.Own v ↔ m !! k = Some v.
Proof.
  unfold JsObject.get. destruct (m !! k); [naive_solver|].
  by destruct (JsObject.inherited k).
Qed.

(** After [if (!obj[k]) obj[k] = v], [obj[k]] is the own value, fresh or
    old, unless [k] is an inherited name that is not an own one. *)
Lemma get_initKey k v m :
  JsObject.get (initKey k v m) k
  = if decide (m !! k = None ∧ JsObject.inherited k = true)
    then JsObject.Inherited
    else JsObject.Own (default v (m !! k)).
Proof.
  unfold initKey, JsObject.get.
  destruct (m !! k) as [x|] eqn:E.
  - cbn [JsObject.falsy]. rewrite E. case_decide; naive_solver.
  - destruct (JsObject.inherited k) eqn:Hk; cbn [JsObject.falsy].
    + rewrite E. case_decide; naive_solver.
    + rewrite lookup_insert_eq. case_decide; naive_solver.
Qed.

(** A write at [k] overwrites the initialisation of [k]. *)
Lemma insert_initKey k v x m : <[k := x]> (initKey k v m) = <[k := x]> m.
Proof.
  unfold initKey. destruct (JsObject.falsy (JsObject.get m k)); [|done].
  apply insert_insert_eq.
Qed.

(** Writing a key splits the flattened dictionary into the old and the
    new contribution of that key. *)
Lemma flatten_insert (f : V → list Task) k v m :
  flatten f (<[k := v]> m) ≡ₚ f v ++ flatten f (delete k m).
Proof.
  unfold flatten. rewrite <- insert_delete_eq.
  rewrite map_to_list_insert by apply lookup_delete_eq. by csimpl.
Qed.

Lemma flatten_lookup (f : V → list Task) k v m :
  m !! k = Some v → flatten f m ≡ₚ f v ++ flatten f (delete k m).
Proof.
  intros Hk. unfold flatten.
  rewrite <- (map_to_list_delete m k v Hk). by csimpl.
Qed.

Lemma flatten_absent (f : V → list Task) k m :
  m !! k = None → flatten f (delete k m) = flatten f m.
Proof. intros Hk. by rewrite delete_id. Qed.

(** Replacing the entry of [k], or the initial value when there is none,
    by one that holds one more task adds that task to the flattened
    dictionary. *)
Lemma flatten_insert_default (f : V → list Task) k v x m t :
  f v = [] →
  f x ≡ₚ f (default v (m !! k)) ++ [t] →
  flatten f (<[k := x]> m) ≡ₚ flatten f m ++ [t].
Proof.
  intros Hv Hx. rewrite flatten_insert, Hx.
  destruct (m !! k) as [y|] eqn:E; simpl.
  - rewrite (flatten_lookup f k y m E). solve_Permutation.
  - rewrite Hv, (flatten_absent f k m E). simpl.
    apply Permutation_cons_append.
Qed.

End Dictionary.

(** [obj[k].push(t)] after the initialisation of [obj[k]]: it throws
    exactly when [k] is inherited and not own, and otherwise extends the
    list of [k], the empty list when [k] is new. *)
Lemma pushAt_initKey k t (m : gmap string (list Task)) :
  pushAt k t (initKey k [] m)
  = if decide (m !! k = None ∧ JsObject.inherited k = true)
    then None
    else Some (<[k := push (default [] (m !! k)) t]> m).
Proof.
  unfold pushAt. rewrite get_initKey.
  case_decide; [done|]. by rewrite insert_initKey.
Qed.

Lemma forEach_snoc {A S : Type} (body : S → A → option S) s l x :
  forEach body s (l ++ [x]) = forEach body s l ≫= fun s' => body s' x.
Proof.
  revert s. induction l as [|y l IH]; intros s; simpl.
  - by destruct (body s x).
  - destruct (body s y) as [s'|]; simpl; [apply IH|done].
Qed.

Lemma forEach_app {A S : Type} (body : S → A → option S) s l1 l2 :
  forEach body s (l1 ++ l2)
  = forEach body s l1 ≫= fun s' => forEach body s' l2.
Proof.
  revert s. induction l1 as [|y l IH]; intros s; simpl; [done|].
  destruct (body s y) as [s'|]; simpl; [apply IH|done].
Qed.

(** ** One step of the classifier *)

(** [organizeProviderTask] throws exactly when the source key is inherited
    and not own, or when filing the task in the entry throws; otherwise it
    rewrites the entry of the source key, the empty entry when the key is
    new. *)
Lemma organizeProviderTask_eq t (sg : gmap string TaskGroup) :
  organizeProviderTask t sg
  = if decide (sg !! sourceKey t = None
               ∧ JsObject.inherited (sourceKey t) = true)
    then None
    else g' ← addToGroup t (extractTaskGroupName t)
                (default emptyGroup (sg !! sourceKey t));
         Some (<[sourceKey t := g']> sg).
Proof.
  unfold organizeProviderTask, sourceKey. cbv zeta. rewrite get_initKey.
  case_decide; [done|].
  destruct (addToGroup _ _ _); simpl; [|done]. by rewrite insert_initKey.
Qed.

(** What [addToGroup] returns when it returns. *)
Lemma addToGroup_Some t e g g' :
  addToGroup t e g = Some g' →
  match e with
  | Some n =>
      if Js.truthy n then
        g' = mkTaskGroup (tasks g)
               (<[n := push (default [] (subGroups g !! n)) t]> (subGroups g))
        ∧ ¬ (subGroups g !! n = None ∧ JsObject.inherited n = true)
      else g' = mkTaskGroup (push (tasks g) t) (subGroups g)
  | None => g' = mkTaskGroup (push (tasks g) t) (subGroups g)
  end.
Proof.
  unfold addToGroup. destruct e as [n|]; [|naive_solver].
  destruct (Js.truthy n); [|naive_solver].
  rewrite pushAt_initKey. case_decide; [done|]. simpl. naive_solver.
Qed.

(** What [organizeStep] returns when it returns. *)
Lemma organizeStep_Some o t o' :
  organizeStep o t = Some o' →
  if isWorkspaceTask t then
    o' = mkOrganizedTasks (push (workspaceTasks o) t) (sourceGroups o)
  else
    ∃ g', addToGroup t (extractTaskGroupName t)
            (default emptyGroup (sourceGroups o !! sourceKey t)) = Some g'
          ∧ o' = mkOrganizedTasks (workspaceTasks o)
                   (<[sourceKey t := g']> (sourceGroups o))
          ∧ ¬ (sourceGroups o !! sourceKey t = None
               ∧ JsObject.inherited (sourceKey t) = true).
Proof.
  unfold organizeStep. destruct (isWorkspaceTask t); [naive_solver|].
  rewrite organizeProviderTask_eq. case_decide; [done|].
  destruct (addToGroup _ _ _) as [g'|]; simpl; [|done]. naive_solver.
Qed.

(** What [organizeTasks] returns on a list extended by one task. *)
Lemma organizeTasks_snoc_Some ts t o :
  organizeTasks (ts ++ [t]) = Some o →
  ∃ o0, organizeTasks ts = Some o0 ∧ organizeStep o0 t = Some o.
Proof.
  unfold organizeTasks. rewrite forEach_snoc.
  destruct (forEach organizeStep _ ts) as [o0|]; simpl; [|done]. eauto.
Qed.

(** A property of the empty result that every returning step keeps holds
    of every result. *)
Lemma organizeTasks_ind (P : list Task → OrganizedTasks → Prop) :
  P [] (mkOrganizedTasks [] ∅) →
  (∀ ts o t o', organizeTasks ts = Some o → P ts o →
                organizeStep o t = Some o' → P (ts ++ [t]) o') →
  ∀ ts o, organizeTasks ts = Some o → P ts o.
Proof.
  intros Hinit Hstep ts.
  induction ts as [|t ts IH] using rev_ind; intros o Ho.
  - by injection Ho as <-.
  - apply organizeTasks_snoc_Some in Ho as (o0 & Ho0 & Hs). eauto.
Qed.

Lemma groupTasks_addToGroup t e g g' :
  addToGroup t e g = Some g' → groupTasks g' ≡ₚ groupTasks g ++ [t].
Proof.
  intros H%addToGroup_Some.
  assert (Hdirect :
    groupTasks (mkTaskGroup (push (tasks g) t) (subGroups g))
    ≡ₚ groupTasks g ++ [t]).
  { unfold groupTasks, push; simpl. solve_Permutation. }
  destruct e as [n|]; [|by subst].
  destruct (Js.truthy n); [|by subst]. destruct H as [-> _].
  unfold groupTasks; simpl.
  rewrite (flatten_insert_default id n [] _ _ t);
    [by rewrite (assoc (++))|done|done].
Qed.

Lemma allTasks_organizeStep o t o' :
  organizeStep o t = Some o' → allTasks o' ≡ₚ allTasks o ++ [t].
Proof.
  intros H%organizeStep_Some. destruct (isWorkspaceTask t).
  - subst o'. unfold allTasks, push; simpl. solve_Permutation.
  - destruct H as (g' & Hadd & -> & _). unfold allTasks; simpl.
    rewrite (flatten_insert_default groupTasks (sourceKey t) emptyGroup
               g' _ t).
    + by rewrite (assoc (++)).
    + done.
    + by apply groupTasks_addToGroup in Hadd.
Qed.

Lemma allTasks_organizeTasks ts o :
  organizeTasks ts = Some o → allTasks o ≡ₚ ts.
Proof.
  revert ts o. apply organizeTasks_ind.
  - unfold allTasks, flatten; simpl. by rewrite map_to_list_empty.
  - intros ts o t o' _ IH Hs.
    by rewrite (allTasks_organizeStep o t o' Hs), IH.
Qed.

Lemma groupCount_length g : groupCount g = length (groupTasks g).
Proof.
  unfold groupCount, groupTasks, flatten.
  by rewrite length_app, length_join, list_fmap_id.
Qed.

Lemma taskCount_length o : taskCount o = length (allTasks o).
Proof.
  unfold taskCount, allTasks, flatten.
  rewrite length_app, length_join. f_equal.
  induction ((map_to_list (sourceGroups o)).*2) as [|g l IH]; csimpl; [done|].
  by rewrite IH, groupCount_length.
Qed.

(** The list held at a destination grows by the task exactly when the
    destination is the one the code selects for it. *)
Lemma bucket_organizeStep o t o' b :
  organizeStep o t = Some o' →
  bucket o' b
  = bucket o b ++ (if decide (bucketOf t = b) then [t] else []).
Proof.
  assert (Hnil : ∀ l : list Task, l = l ++ []).
  { intros l. by rewrite (right_id [] (++)). }
  intros H%organizeStep_Some. unfold bucketOf.
  destruct (isWorkspaceTask t) eqn:Hw.
  { subst o'. destruct b; case_decide; simplify_eq;
      by cbn [bucket workspaceTasks sourceGroups push]. }
  destruct H as (g' & Hadd%addToGroup_Some & -> & _).
  destruct b as [|s|s n]; cbn [bucket workspaceTasks sourceGroups].
  - rewrite decide_False; [done|].
    by destruct (extractTaskGroupName t) as [n|]; [destruct (Js.truthy n)|].
  - rewrite lookup_insert.
    destruct (sourceGroups o !! s) as [g|] eqn:Hg;
      destruct (extractTaskGroupName t) as [n|];
      try destruct (Js.truthy n);
      repeat case_decide; destruct_and?; simplify_eq; rewrite ?Hg; done.
  - rewrite lookup_insert.
    destruct (sourceGroups o !! s) as [g|] eqn:Hg;
      destruct (extractTaskGroupName t) as [n'|];
      try destruct (Js.truthy n');
      repeat case_decide; destruct_and?; simplify_eq; rewrite ?Hg; cbn;
      rewrite ?lookup_insert_eq, ?lookup_insert_ne by congruence;
      try done.
    all: by destruct (subGroups g !! n).
Qed.

(** Every list of the result is the input filtered by destination. *)
Lemma bucket_organizeTasks ts o b :
  organizeTasks ts = Some o →
  bucket o b = filter (fun t => bucketOf t = b) ts.
Proof.
  revert ts o. apply organizeTasks_ind.
  - by destruct b.
  - intros ts o t o' _ IH Hs.
    rewrite (bucket_organizeStep o t o' b Hs), IH, filter_app.
    by f_equal.
Qed.

(** ** Routing tests *)

Lemma truthy_true s : Js.truthy s = true ↔ s ≠ "".
Proof. unfold Js.truthy. by rewrite bool_decide_eq_true. Qed.

Lemma truthy_false s : Js.truthy s = false ↔ s = "".
Proof.
  unfold Js.truthy. rewrite bool_decide_eq_false.
  split; [apply dec_stable | by intros -> ?].
Qed.

Lemma isWorkspaceTask_true t :
  isWorkspaceTask t = true
  ↔ source t = None ∨ source t = Some "" ∨ source t = Some "Workspace".
Proof.
  unfold isWorkspaceTask, Js.strict_eq, Js.truthy_opt.
  rewrite orb_true_iff, bool_decide_eq_true, negb_true_iff.
  destruct (source t) as [s|]; [|naive_solver].
  rewrite truthy_false. naive_solver.
Qed.

Lemma isWorkspaceTask_false t :
  isWorkspaceTask t = false
  ↔ ∃ s, source t = Some s ∧ s ≠ "" ∧ s ≠ "Workspace".
Proof.
  rewrite <- not_true_iff_false, isWorkspaceTask_true.
  destruct (source t) as [s|]; [|naive_solver].
  split.
  - intros H. exists s. naive_solver.
  - intros (s' & [= <-] & ? & ?). naive_solver.
Qed.

(** A task on the provider path is keyed by its own source value. *)
Lemma sourceKey_provider t s :
  source t = Some s → s ≠ "" → sourceKey t = s.
Proof.
  intros Hs Hne. unfold sourceKey, Js.or_else. rewrite Hs.
  apply truthy_true in Hne. by rewrite Hne.
Qed.

(** The group name is never the empty string. *)
Lemma extractTaskGroupName_truthy t n :
  extractTaskGroupName t = Some n → Js.truthy n = true.
Proof.
  unfold extractTaskGroupName, Js.or_else.
  destruct (group t) as [[s|[i|]]|]; try done.
  - destruct (Js.truthy s) eqn:E; naive_solver.
  - destruct (Js.truthy i) eqn:E; naive_solver.
  - naive_solver.
Qed.

Lemma bucketOf_provider t :
  isWorkspaceTask t = false →
  bucketOf t = match extractTaskGroupName t with
               | Some n => InSubGroup (sourceKey t) n
               | None => InSource (sourceKey t)
               end.
Proof.
  intros Hw. unfold bucketOf. rewrite Hw.
  destruct (extractTaskGroupName t) as [n|] eqn:E; [|done].
  by rewrite (extractTaskGroupName_truthy t n E).
Qed.

(** ** Membership in the lists of the result *)

Lemma elem_of_bucket_InSource o s t :
  t ∈ bucket o (InSource s) ↔ inDirectTasks o s t.
Proof.
  unfold inDirectTasks; simpl.
  destruct (sourceGroups o !! s) as [g|]; simpl.
  - naive_solver.
  - split; [by intros ?%elem_of_nil | naive_solver].
Qed.

Lemma elem_of_bucket_InSubGroup o s n t :
  t ∈ bucket o (InSubGroup s n) ↔ inSubGroup o s n t.
Proof.
  unfold inSubGroup; simpl.
  destruct (sourceGroups o !! s) as [g|]; simpl.
  - destruct (subGroups g !! n) as [l|] eqn:E; simpl.
    + naive_solver.
    + split; [by intros ?%elem_of_nil | naive_solver].
  - split; [by intros ?%elem_of_nil | naive_solver].
Qed.

Lemma elem_of_bucket_organizeTasks ts o b t :
  organizeTasks ts = Some o →
  t ∈ bucket o b ↔ t ∈ ts ∧ bucketOf t = b.
Proof.
  intros Ho. rewrite (bucket_organizeTasks ts o b Ho), list_elem_of_filter.
  naive_solver.
Qed.

Lemma stableSelection_bucket ts o b :
  organizeTasks ts = Some o → stableSelection ts b (bucket o b).
Proof.
  intros Ho. split; [by apply bucket_organizeTasks|].
  rewrite (bucket_organizeTasks ts o b Ho). apply sublist_filter.
Qed.

(** ** Keys of the result *)

Lemma dom_organizeStep o t o' :
  organizeStep o t = Some o' →
  dom (sourceGroups o')
  = dom (sourceGroups o)
    ∪ (if isWorkspaceTask t then ∅ else {[ sourceKey t ]}).
Proof.
  intros H%organizeStep_Some. destruct (isWorkspaceTask t).
  - subst o'. simpl. set_solver.
  - destruct H as (g' & _ & -> & _). simpl. rewrite dom_insert_L. set_solver.
Qed.

Lemma dom_organizeTasks ts o :
  organizeTasks ts = Some o →
  dom (sourceGroups o)
  = list_to_set (sourceKey <$> filter (fun t => isWorkspaceTask t = false) ts).
Proof.
  revert ts o. apply organizeTasks_ind.
  - simpl. set_solver.
  - intros ts o t o' _ IH Hs.
    rewrite (dom_organizeStep o t o' Hs), IH, filter_app, fmap_app,
      list_to_set_app_L, filter_cons, filter_nil.
    destruct (isWorkspaceTask t); case_decide; try done; set_solver.
Qed.

Lemma elem_of_dom_sourceGroups ts o s :
  organizeTasks ts = Some o →
  s ∈ dom (sourceGroups o)
  ↔ ∃ t, t ∈ ts ∧ isWorkspaceTask t = false ∧ source t = Some s.
Proof.
  intros Ho.
  rewrite (dom_organizeTasks ts o Ho), elem_of_list_to_set, list_elem_of_fmap.
  setoid_rewrite list_elem_of_filter. split.
  - intros (t & -> & Hw & Ht). exists t. split; [done|]. split; [done|].
    apply isWorkspaceTask_false in Hw as (s & Hs & Hne & _).
    by rewrite (sourceKey_provider t s Hs Hne).
  - intros (t & Ht & Hw & Hs). exists t. split; [|done].
    apply isWorkspaceTask_false in Hw as Hw'.
    destruct Hw' as (s' & Hs' & Hne & _).
    symmetry. apply sourceKey_provider; congruence.
Qed.

(** ** The status deriver, entry by entry *)

Lemma isRunning_true es t :
  isRunning es t = true ↔ ∃ e, e ∈ es ∧ name (task e) = name t.
Proof.
  unfold isRunning. rewrite existsb_exists.
  setoid_rewrite bool_decide_eq_true. setoid_rewrite <- list_elem_of_In.
  done.
Qed.

Lemma statusOf_name es t t' :
  name t = name t' → statusOf es t = statusOf es t'.
Proof. intros H. unfold statusOf, isRunning. by rewrite H. Qed.

Lemma lookup_setPrimitive {V : Type} k (v : V) (m : gmap string V) j :
  JsObject.setPrimitive k v m !! j
  = if decide (k = j ∧ k ≠ "__proto__") then Some v else m !! j.
Proof.
  unfold JsObject.setPrimitive. case_bool_decide as Hk.
  - by rewrite decide_False by naive_solver.
  - rewrite lookup_insert. repeat case_decide; naive_solver.
Qed.

Lemma createTaskStatuses_snoc ts t es :
  createTaskStatuses (ts ++ [t]) es
  = JsObject.setPrimitive (name t) (statusOf es t)
      (createTaskStatuses ts es).
Proof. unfold createTaskStatuses. by rewrite foldl_snoc. Qed.

Lemma lookup_createTaskStatuses_Some ts es n st :
  createTaskStatuses ts es !! n = Some st
  ↔ n ≠ "__proto__" ∧ ∃ t, t ∈ ts ∧ name t = n ∧ st = statusOf es t.
Proof.
  induction ts as [|t ts IH] using rev_ind.
  - unfold createTaskStatuses; simpl. rewrite lookup_empty.
    split; [done|]. by intros (_ & t & ?%elem_of_nil & _).
  - rewrite createTaskStatuses_snoc, lookup_setPrimitive.
    setoid_rewrite elem_of_app. setoid_rewrite list_elem_of_singleton.
    destruct (decide (name t = n ∧ name t ≠ "__proto__")) as [[Hn Hp]|Hn].
    + split.
      * intros [= <-]. split; [congruence|]. exists t. naive_solver.
      * intros (_ & t' & _ & Hn' & ->). f_equal.
        apply statusOf_name. congruence.
    + rewrite IH. split.
      * naive_solver.
      * intros (Hp & t' & [Ht'| ->] & Hn' & ->); [naive_solver|].
        exfalso. apply Hn. split; congruence.
Qed.

Lemma lookup_createTaskStatuses ts es t :
  t ∈ ts → name t ≠ "__proto__" →
  createTaskStatuses ts es !! name t = Some (statusOf es t).
Proof. intros Ht Hp. apply lookup_createTaskStatuses_Some. eauto. Qed.

Lemma lookup_createTaskStatuses_proto ts es :
  createTaskStatuses ts es !! "__proto__" = None.
Proof.
  apply eq_None_not_Some. intros [st Hst].
  by apply lookup_createTaskStatuses_Some in Hst as [? _].
Qed.

Lemma dom_createTaskStatuses ts es :
  dom (createTaskStatuses ts es)
  = list_to_set (filter (fun n => n ≠ "__proto__") (name <$> ts)).
Proof.
  apply set_eq. intros n.
  rewrite elem_of_dom, elem_of_list_to_set, list_elem_of_filter,
    list_elem_of_fmap.
  unfold is_Some. setoid_rewrite lookup_createTaskStatuses_Some.
  naive_solver.
Qed.

(** ** Destinations *)

Lemma bucketOf_InSource_inv t s :
  bucketOf t = InSource s →
  isWorkspaceTask t = false ∧ source t = Some s
  ∧ extractTaskGroupName t = None.
Proof.
  unfold bucketOf. destruct (isWorkspaceTask t) eqn:Hw; [done|].
  apply isWorkspaceTask_false in Hw as (s' & Hs & Hne & _).
  rewrite (sourceKey_provider t s' Hs Hne).
  destruct (extractTaskGroupName t) as [n|] eqn:E.
  - by rewrite (extractTaskGroupName_truthy t n E).
  - by intros [= <-].
Qed.

Lemma bucketOf_InSubGroup_inv t s n :
  bucketOf t = InSubGroup s n →
  isWorkspaceTask t = false ∧ source t = Some s
  ∧ extractTaskGroupName t = Some n.
Proof.
  unfold bucketOf. destruct (isWorkspaceTask t) eqn:Hw; [done|].
  apply isWorkspaceTask_false in Hw as (s' & Hs & Hne & _).
  rewrite (sourceKey_provider t s' Hs Hne).
  destruct (extractTaskGroupName t) as [n'|] eqn:E; [|done].
  rewrite (extractTaskGroupName_truthy t n' E). by intros [= <- <-].
Qed.

(** A provider task lands in the direct list of its source when no group
    name is extracted, and in the sub-group of the extracted name
    otherwise. *)
Lemma provider_destination ts o t s :
  organizeTasks ts = Some o →
  t ∈ ts → isWorkspaceTask t = false → source t = Some s →
  match extractTaskGroupName t with
  | Some n => inSubGroup o s n t
  | None => inDirectTasks o s t
  end.
Proof.
  intros Ho Ht Hw Hs.
  assert (Hkey : sourceKey t = s).
  { apply isWorkspaceTask_false in Hw as (s' & Hs' & Hne & _).
    apply sourceKey_provider; congruence. }
  pose proof (bucketOf_provider t Hw) as Hb. rewrite Hkey in Hb.
  destruct (extractTaskGroupName t) as [n|].
  - by apply elem_of_bucket_InSubGroup, (elem_of_bucket_organizeTasks ts).
  - by apply elem_of_bucket_InSource, (elem_of_bucket_organizeTasks ts).
Qed.

(** No sub-group of the result holds a task under the empty name. *)
Lemma no_blank_subGroup ts o s t :
  organizeTasks ts = Some o → ¬ inSubGroup o s "" t.
Proof.
  intros Ho Hin%elem_of_bucket_InSubGroup.
  apply (elem_of_bucket_organizeTasks ts o _ t Ho) in Hin as [_ Hb].
  apply bucketOf_InSubGroup_inv in Hb as (_ & _ & E).
  by apply extractTaskGroupName_truthy in E.
Qed.

(** ** Invariants of the result *)

(** The sub-group lists of an entry stay non-empty, and an entry never
    stays without a task, under one more task. *)
Lemma addToGroup_populated t e g g' :
  addToGroup t e g = Some g' →
  (∀ n l, subGroups g !! n = Some l → l ≠ []) →
  (∀ n l, subGroups g' !! n = Some l → l ≠ [])
  ∧ (tasks g' ≠ [] ∨ subGroups g' ≠ ∅).
Proof.
  intros H%addToGroup_Some Hg.
  assert (Hdirect :
    let g1 := mkTaskGroup (push (tasks g) t) (subGroups g) in
    (∀ n l, subGroups g1 !! n = Some l → l ≠ [])
    ∧ (tasks g1 ≠ [] ∨ subGroups g1 ≠ ∅)).
  { simpl. split; [exact Hg|]. left. unfold push.
    intros Happ. by apply app_nil in Happ as [_ ?]. }
  destruct e as [n|]; [|by subst].
  destruct (Js.truthy n); [|by subst]. destruct H as [-> _].
  simpl. split.
  - intros k l. rewrite lookup_insert. case_decide; [|by apply Hg].
    intros [= <-]. unfold push. intros Happ.
    by apply app_nil in Happ as [_ ?].
  - right. apply insert_non_empty.
Qed.

Lemma organizeTasks_populated ts o s g :
  organizeTasks ts = Some o →
  sourceGroups o !! s = Some g →
  (∀ n l, subGroups g !! n = Some l → l ≠ [])
  ∧ (tasks g ≠ [] ∨ subGroups g ≠ ∅).
Proof.
  intros Ho. revert s g. revert ts o Ho.
  apply (organizeTasks_ind (fun _ o => ∀ s g,
    sourceGroups o !! s = Some g →
    (∀ n l, subGroups g !! n = Some l → l ≠ [])
    ∧ (tasks g ≠ [] ∨ subGroups g ≠ ∅))).
  - intros s g. simpl. by rewrite lookup_empty.
  - intros ts o t o' _ IH Hs%organizeStep_Some s g.
    destruct (isWorkspaceTask t); [subst o'; apply IH|].
    destruct Hs as (g' & Hadd & -> & _). simpl. rewrite lookup_insert.
    case_decide; [|apply IH]. subst s. intros [= <-].
    apply (addToGroup_populated _ _ _ _ Hadd).
    destruct (sourceGroups o !! sourceKey t) as [g0|] eqn:E; simpl.
    + exact (proj1 (IH _ g0 E)).
    + intros n l. by rewrite lookup_empty.
Qed.

(** The own keys of a result are never inherited names. *)
Lemma organizeTasks_noInheritedKey ts o :
  organizeTasks ts = Some o → noInheritedKey o.
Proof.
  revert ts o. apply organizeTasks_ind.
  - split; [by intros s ?%elem_of_dom%is_Some_alt|].
    intros s g n. simpl. by rewrite lookup_empty.
  - intros ts o t o' _ [IHs IHn] Hs%organizeStep_Some.
    destruct (isWorkspaceTask t); [by subst o'|].
    destruct Hs as (g' & Hadd%addToGroup_Some & -> & Hsk). split.
    + intros s. simpl. rewrite dom_insert_L, elem_of_union, elem_of_singleton.
      intros [-> | Hs]; [|by apply IHs].
      destruct (sourceGroups o !! sourceKey t) eqn:E.
      * apply IHs, elem_of_dom. eauto.
      * destruct (JsObject.inherited (sourceKey t)); naive_solver.
    + intros s g n. simpl. rewrite lookup_insert.
      case_decide; [|by apply IHn]. intros [= <-].
      assert (Hold : ∀ n, n ∈
                dom (subGroups (default emptyGroup
                       (sourceGroups o !! sourceKey t))) →
                JsObject.inherited n = false).
      { intros n'. destruct (sourceGroups o !! sourceKey t) as [g0|] eqn:E;
          simpl; [by apply (IHn (sourceKey t))|].
        by rewrite dom_empty_L, elem_of_empty. }
      destruct (extractTaskGroupName t) as [n'|];
        [destruct (Js.truthy n')|]; try (subst g'; by apply Hold).
      destruct Hadd as [-> Hn']. simpl.
      rewrite dom_insert_L, elem_of_union, elem_of_singleton.
      intros [-> | Hn]; [|by apply Hold].
      destruct (subGroups _ !! n') eqn:E.
      * apply Hold, elem_of_dom. eauto.
      * destruct (JsObject.inherited n'); naive_solver.
Qed.

(** On a result, a step throws exactly when its task touches an inherited
    property. *)
Lemma organizeStep_None o t :
  noInheritedKey o →
  organizeStep o t = None ↔ touchesInherited t = true.
Proof.
  intros [Hs Hn]. unfold organizeStep, touchesInherited.
  destruct (isWorkspaceTask t); [done|]. simpl.
  rewrite organizeProviderTask_eq.
  assert (Hsk : sourceGroups o !! sourceKey t = None
                ∧ JsObject.inherited (sourceKey t) = true
                ↔ JsObject.inherited (sourceKey t) = true).
  { split; [naive_solver|]. intros Hi. split; [|done].
    apply eq_None_not_Some. intros Hsome%elem_of_dom%Hs. congruence. }
  case_decide as Hd.
  { apply Hsk in Hd. rewrite Hd. done. }
  assert (Hi : JsObject.inherited (sourceKey t) = false).
  { destruct (JsObject.inherited (sourceKey t)); [|done].
    exfalso. by apply Hd, Hsk. }
  rewrite Hi. simpl. unfold addToGroup.
  destruct (extractTaskGroupName t) as [n|] eqn:E; simpl; [|done].
  rewrite (extractTaskGroupName_truthy t n E), pushAt_initKey.
  assert (Hold : ∀ n, n ∈
            dom (subGroups (default emptyGroup
                   (sourceGroups o !! sourceKey t))) →
            JsObject.inherited n = false).
  { intros n'. destruct (sourceGroups o !! sourceKey t) as [g0|] eqn:Eg;
      simpl; [by apply (Hn (sourceKey t))|].
    by rewrite dom_empty_L, elem_of_empty. }
  case_decide as Hd'.
  - destruct Hd' as [_ ->]. done.
  - simpl. split; [done|]. intros Hin. exfalso. apply Hd'. split; [|done].
    apply eq_None_not_Some. intros Hsome%elem_of_dom%Hold. congruence.
Qed.

(** [organizeTasks] throws exactly on the lists that hold a task that
    touches an inherited property. *)
Lemma organizeTasks_None ts :
  organizeTasks ts = None ↔ ∃ t, t ∈ ts ∧ touchesInherited t = true.
Proof.
  induction ts as [|t ts IH] using rev_ind.
  - split; [done|]. by intros (t & ?%elem_of_nil & _).
  - unfold organizeTasks in *. rewrite forEach_snoc.
    setoid_rewrite elem_of_app. setoid_rewrite list_elem_of_singleton.
    destruct (forEach organizeStep _ ts) as [o|] eqn:Ho; simpl.
    + rewrite (organizeStep_None o t)
        by (by apply (organizeTasks_noInheritedKey ts)).
      split; [naive_solver|].
      intros (t' & [Ht'| ->] & Hbad); [|done].
      assert (Some o = None) as Hn by (apply IH; eauto).
      discriminate Hn.
    + split; [|done]. intros _.
      destruct (proj1 IH) as (t' & Ht' & Hbad); [done|]. eauto.
Qed.

(** The tasks of one source entry, step by step. *)
Lemma entry_organizeStep o t o' s :
  organizeStep o t = Some o' →
  from_option groupTasks [] (sourceGroups o' !! s)
  ≡ₚ from_option groupTasks [] (sourceGroups o !! s)
     ++ (if decide (isWorkspaceTask t = false ∧ sourceKey t = s)
         then [t] else []).
Proof.
  intros H%organizeStep_Some. destruct (isWorkspaceTask t) eqn:Hw.
  { subst o'. case_decide; [naive_solver|]. by rewrite (right_id [] (++)). }
  destruct H as (g' & Hadd%groupTasks_addToGroup & -> & _).
  cbn [sourceGroups]. rewrite lookup_insert.
  destruct (decide (sourceKey t = s)) as [Hs|Hs]; case_decide;
    try naive_solver.
  - cbn [from_option]. rewrite Hadd. subst s.
    by destruct (sourceGroups o !! sourceKey t).
  - by rewrite (right_id [] (++)).
Qed.

Lemma entry_organizeTasks ts o s :
  organizeTasks ts = Some o →
  from_option groupTasks [] (sourceGroups o !! s)
  ≡ₚ filter (fun t => isWorkspaceTask t = false ∧ sourceKey t = s) ts.
Proof.
  revert ts o. apply organizeTasks_ind.
  - simpl. by rewrite lookup_empty.
  - intros ts o t o' _ IH Hs.
    rewrite (entry_organizeStep o t o' s Hs), IH, filter_app.
    f_equiv. rewrite filter_cons, filter_nil. by repeat case_decide.
Qed.

Lemma entry_source_filter ts o s g :
  organizeTasks ts = Some o →
  sourceGroups o !! s = Some g →
  groupTasks g ≡ₚ filter (fun t => source t = Some s) ts.
Proof.
  intros Ho Hg. pose proof (entry_organizeTasks ts o s Ho) as H.
  rewrite Hg in H. simpl in H. rewrite H.
  assert (Hs : s ∈ dom (sourceGroups o)).
  { apply elem_of_dom. eauto. }
  apply (elem_of_dom_sourceGroups ts o s Ho) in Hs as (t0 & _ & Hw0 & Hs0).
  apply isWorkspaceTask_false in Hw0 as (s0 & Hs0' & Hne & Hnw).
  assert (s0 = s) as -> by congruence.
  erewrite list_filter_iff; [done|]. intros t. split.
  - intros [Hw Hk]. apply isWorkspaceTask_false in Hw as (s' & Hs' & Hne' & _).
    rewrite (sourceKey_provider t s' Hs' Hne') in Hk. congruence.
  - intros Hs. split.
    + apply isWorkspaceTask_false. eauto.
    + by apply sourceKey_provider.
Qed.

Lemma elem_of_flatten {V : Type} (f : V → list Task) (m : gmap string V) t :
  t ∈ flatten f m ↔ ∃ k v, m !! k = Some v ∧ t ∈ f v.
Proof.
  unfold flatten. rewrite list_elem_of_join. split.
  - intros (l & Ht & Hl). apply list_elem_of_fmap in Hl as (v & -> & Hv).
    apply list_elem_of_fmap in Hv as ([k v'] & -> & Hkv).
    apply elem_of_map_to_list in Hkv. eauto.
  - intros (k & v & Hkv & Ht). exists (f v). split; [done|].
    apply list_elem_of_fmap. exists v. split; [done|].
    apply list_elem_of_fmap. exists (k, v). split; [done|].
    by apply elem_of_map_to_list.
Qed.

(** A dictionary of non-empty lists has no more keys than tasks. *)
Lemma size_le_flatten (m : gmap string (list Task)) :
  (∀ k l, m !! k = Some l → l ≠ []) →
  (size m ≤ length (mjoin (map_to_list m).*2))%nat.
Proof.
  intros Hm. rewrite <- length_map_to_list.
  assert (Hall : Forall (fun kl => kl.2 ≠ []) (map_to_list m)).
  { apply Forall_forall. intros [k l] Hkl%elem_of_map_to_list.
    by apply (Hm k l). }
  induction Hall as [|[k l] kls Hl _ IH]; csimpl; [done|].
  rewrite length_app. destruct l; [done|]. simpl. lia.
Qed.


(** * Properties of the classifier *)

(** C1. Partition completeness fails on a source name inherited from
    [Object.prototype]: the single task of source "constructor" is routed
    to the provider path, where [sourceGroups[source]] reads the inherited
    constructor; the call throws and the task is held by no bucket. *)
Theorem organizeTasks_throws_on_inherited_source :
  isWorkspaceTask Samples.constructorSource = false
  ∧ organizeTasks [Samples.constructorSource] = None.
Proof. split; by vm_compute. Qed.

(** C6. Order preservation: whenever [organizeTasks] returns, the
    workspace list, the direct list of every source entry and every
    sub-group list are the input list restricted to the tasks of that
    destination, in input order; each is a sub-list of the input, so two
    tasks of one list stand in their input order. *)
Theorem organizeTasks_order (ts : list Task) (o : OrganizedTasks) :
  organizeTasks ts = Some o →
  stableSelection ts InWorkspace (workspaceTasks o)
  ∧ ∀ s g, sourceGroups o !! s = Some g →
      stableSelection ts (InSource s) (tasks g)
      ∧ ∀ n l, subGroups g !! n = Some l →
          stableSelection ts (InSubGroup s n) l.
Proof.
  intros Ho. split; [apply (stableSelection_bucket ts o InWorkspace Ho)|].
  intros s g Hg. split.
  - pose proof (stableSelection_bucket ts o (InSource s) Ho) as H.
    simpl in H. by rewrite Hg in H.
  - intros n l Hl.
    pose proof (stableSelection_bucket ts o (InSubGroup s n) Ho) as H.
    simpl in H. rewrite Hg in H. simpl in H. by rewrite Hl in H.
Qed.

Lemma organizeTasks_order_witness :
  stableSelection Scenario.snapshot InWorkspace
    (workspaceTasks Scenario.organized)
  ∧ ∀ s g, sourceGroups Scenario.organized !! s = Some g →
      stableSelection Scenario.snapshot (InSource s) (tasks g)
      ∧ ∀ n l, subGroups g !! n = Some l →
          stableSelection Scenario.snapshot (InSubGroup s n) l.
Proof.
  apply (organizeTasks_order Scenario.snapshot Scenario.organized).
  vm_compute. reflexivity.
Defined.

(** C7. The key set fails on a source name inherited from
    [Object.prototype]: with provider tasks of the sources "npm" and
    "constructor" the call throws, so no mapping results and neither source
    gets an entry. *)
Theorem sourceGroups_none_on_inherited_source :
  isWorkspaceTask Samples.lint = false
  ∧ isWorkspaceTask Samples.constructorSource = false
  ∧ organizeTasks [Samples.lint; Samples.constructorSource] = None.
Proof. repeat split; by vm_compute. Qed.

(** * Properties of the status deriver *)

(** C2. The running rule fails on the name "__proto__": the assignment
    [taskStatuses["__proto__"] = 'yellow'] is ignored, so for a task of
    that name with an execution of that name the map has no entry, neither
    running nor idle. *)
Theorem createTaskStatuses_proto_no_entry :
  isRunning [mkTaskExecution Samples.protoName] Samples.protoName = true
  ∧ createTaskStatuses [Samples.protoName]
      [mkTaskExecution Samples.protoName] = ∅
  ∧ createTaskStatuses [Samples.protoName]
      [mkTaskExecution Samples.protoName] !! name Samples.protoName = None.
Proof. repeat split; by vm_compute. Qed.

(** C8. The domain of the status map fails on the name "__proto__": for
    the single task of that name the map has no key, while the set of
    input names holds "__proto__". *)
Theorem createTaskStatuses_domain_misses_proto :
  dom (createTaskStatuses [Samples.protoName] []) = ∅
  ∧ "__proto__" ∈ name <$> [Samples.protoName].
Proof. split; [by vm_compute|]. simpl. apply list_elem_of_here. Qed.

(** * Routing of single tasks *)

(** C4, as stated, fails for an empty source: the task is routed to the
    workspace list although its source is present and is not
    "Workspace". *)
Lemma workspace_routing_blank_source :
  organizeTasks [Samples.blankSource]
  = Some (mkOrganizedTasks [Samples.blankSource] ∅)
  ∧ ¬ (source Samples.blankSource = None
       ∨ source Samples.blankSource = Some "Workspace").
Proof.
  split.
  - by vm_compute.
  - intros [H|H]; discriminate H.
Qed.

(** C4, amended. Whenever [organizeTasks] returns, a task is in the
    workspace list exactly when it is an input task whose source is
    absent, the empty string, or exactly "Workspace"; the comparison is
    exact, so a task is held under the source key "workspace" exactly when
    it is an input task of source "workspace". *)
Theorem workspace_routing
    (ts : list Task) (o : OrganizedTasks) (t : Task) :
  organizeTasks ts = Some o →
  (t ∈ workspaceTasks o
     ↔ t ∈ ts ∧ (source t = None ∨ source t = Some ""
                 ∨ source t = Some "Workspace"))
  ∧ ((inDirectTasks o "workspace" t ∨ ∃ n, inSubGroup o "workspace" n t)
     ↔ t ∈ ts ∧ source t = Some "workspace").
Proof.
  intros Ho. split.
  - change (workspaceTasks o) with (bucket o InWorkspace).
    rewrite (elem_of_bucket_organizeTasks ts o _ t Ho),
      <- isWorkspaceTask_true.
    unfold bucketOf. destruct (isWorkspaceTask t) eqn:Hw; [naive_solver|].
    split; [|naive_solver]. intros [_ Hb].
    by destruct (extractTaskGroupName t) as [n|]; [destruct (Js.truthy n)|].
  - rewrite <- elem_of_bucket_InSource.
    setoid_rewrite <- elem_of_bucket_InSubGroup.
    rewrite (elem_of_bucket_organizeTasks ts o _ t Ho).
    setoid_rewrite (elem_of_bucket_organizeTasks ts o _ t Ho).
    assert (Hkey : ∀ b, bucketOf t = b →
              (b = InSource "workspace" ∨ ∃ n, b = InSubGroup "workspace" n) →
              source t = Some "workspace").
    { intros b Hb Hshape. unfold bucketOf in Hb.
      destruct (isWorkspaceTask t) eqn:Hw; [naive_solver|].
      apply isWorkspaceTask_false in Hw as (s & Hs & Hne & _).
      rewrite (sourceKey_provider t s Hs Hne) in Hb.
      destruct (extractTaskGroupName t) as [n|];
        [destruct (Js.truthy n)|]; naive_solver. }
    split.
    + intros [[Ht Hb]|[n [Ht Hb]]]; (split; [done|]); eapply Hkey; eauto.
    + intros [Ht Hs].
      assert (Hw : isWorkspaceTask t = false).
      { apply isWorkspaceTask_false. exists "workspace". by rewrite Hs. }
      pose proof (bucketOf_provider t Hw) as Hb.
      rewrite (sourceKey_provider t "workspace" Hs) in Hb by done.
      destruct (extractTaskGroupName t) as [n|]; [right; exists n|left]; done.
Qed.

Lemma workspace_routing_witness :
  (Samples.dev ∈ workspaceTasks Scenario.organized
     ↔ Samples.dev ∈ Scenario.snapshot
       ∧ (source Samples.dev = None ∨ source Samples.dev = Some ""
          ∨ source Samples.dev = Some "Workspace"))
  ∧ ((inDirectTasks Scenario.organized "workspace" Samples.dev
      ∨ ∃ n, inSubGroup Scenario.organized "workspace" n Samples.dev)
     ↔ Samples.dev ∈ Scenario.snapshot
       ∧ source Samples.dev = Some "workspace").
Proof.
  apply (workspace_routing Scenario.snapshot Scenario.organized Samples.dev).
  vm_compute. reflexivity.
Defined.

(** C5, as stated, fails: a task whose source is the empty string is put
    in the workspace list, and no entry "Unknown" is created. *)
Lemma blank_source_not_Unknown :
  organizeTasks [Samples.blankSource]
  = Some (mkOrganizedTasks [Samples.blankSource] ∅)
  ∧ sourceGroups (mkOrganizedTasks [Samples.blankSource] ∅) !! "Unknown"
    = None.
Proof. split; by vm_compute. Qed.

(** C5, amended. Whenever [organizeTasks] returns, a task whose source is
    present and empty is in the workspace list and is held by no source
    entry; the key "Unknown" is the one [organizeProviderTask], when it
    returns, files such a task under, were it called on it. *)
Theorem blank_source_routing
    (ts : list Task) (o : OrganizedTasks) (t : Task) :
  organizeTasks ts = Some o → t ∈ ts → source t = Some "" →
  t ∈ workspaceTasks o
  ∧ (∀ s, ¬ inDirectTasks o s t ∧ ∀ n, ¬ inSubGroup o s n t)
  ∧ ∀ sg sg', organizeProviderTask t sg = Some sg' →
              ∃ g, sg' !! "Unknown" = Some g ∧ t ∈ groupTasks g.
Proof.
  intros Ho Ht Hs.
  assert (Hw : isWorkspaceTask t = true).
  { apply isWorkspaceTask_true. auto. }
  assert (Hb : bucketOf t = InWorkspace).
  { unfold bucketOf. by rewrite Hw. }
  split; [|split].
  - change (t ∈ bucket o InWorkspace).
    by apply (elem_of_bucket_organizeTasks ts).
  - intros s. split.
    + intros Hin%elem_of_bucket_InSource.
      apply (elem_of_bucket_organizeTasks ts o _ t Ho) in Hin as [_ H].
      congruence.
    + intros n Hin%elem_of_bucket_InSubGroup.
      apply (elem_of_bucket_organizeTasks ts o _ t Ho) in Hin as [_ H].
      congruence.
  - intros sg sg'. rewrite organizeProviderTask_eq.
    assert (Hk : sourceKey t = "Unknown").
    { unfold sourceKey. by rewrite Hs. }
    rewrite Hk. case_decide; [done|].
    destruct (addToGroup _ _ _) as [g'|] eqn:Hadd; simpl; [|done].
    intros [= <-]. exists g'. rewrite lookup_insert_eq. split; [done|].
    rewrite (groupTasks_addToGroup _ _ _ _ Hadd). set_solver.
Qed.

Lemma blank_source_routing_witness :
  Samples.blankSource
    ∈ workspaceTasks (mkOrganizedTasks [Samples.blankSource] ∅)
  ∧ (∀ s, ¬ inDirectTasks (mkOrganizedTasks [Samples.blankSource] ∅) s
              Samples.blankSource
          ∧ ∀ n, ¬ inSubGroup (mkOrganizedTasks [Samples.blankSource] ∅) s n
                     Samples.blankSource)
  ∧ ∀ sg sg', organizeProviderTask Samples.blankSource sg = Some sg' →
              ∃ g, sg' !! "Unknown" = Some g
                   ∧ Samples.blankSource ∈ groupTasks g.
Proof.
  apply (blank_source_routing [Samples.blankSource]
           (mkOrganizedTasks [Samples.blankSource] ∅) Samples.blankSource).
  - vm_compute. reflexivity.
  - apply list_elem_of_here.
  - reflexivity.
Defined.

(** C3, as stated, fails for a plain group string that is empty: no group
    id is resolved and the task is in the direct list of its source, not in
    a sub-group keyed by that string. *)
Lemma group_resolution_blank_group :
  group Samples.blankGroup = Some (GroupPlain "")
  ∧ extractTaskGroupName Samples.blankGroup ≠ Some ""
  ∧ organizeTasks [Samples.blankGroup]
    = Some (mkOrganizedTasks []
              {[ "npm" := mkTaskGroup [Samples.blankGroup] ∅ ]}).
Proof. split; [done|]. split; by vm_compute. Qed.

(** C3, amended. Whenever [organizeTasks] returns, for a provider-routed
    task of source [s]: with no group field there is no group id and the
    task is in the direct list of [s]; with a plain non-empty string that
    string is the id and the task is in the sub-group of that name; with a
    structured value the id is its non-empty [id] field, and "build" when
    the value has no [id]. *)
Theorem group_resolution
    (ts : list Task) (o : OrganizedTasks) (t : Task) (s : string) :
  organizeTasks ts = Some o →
  t ∈ ts → isWorkspaceTask t = false → source t = Some s →
  match group t with
  | None => extractTaskGroupName t = None ∧ inDirectTasks o s t
  | Some (GroupPlain n) =>
      n ≠ "" → extractTaskGroupName t = Some n ∧ inSubGroup o s n t
  | Some (GroupStructured (Some i)) =>
      i ≠ "" → extractTaskGroupName t = Some i ∧ inSubGroup o s i t
  | Some (GroupStructured None) =>
      extractTaskGroupName t = Some "build" ∧ inSubGroup o s "build" t
  end.
Proof.
  intros Ho Ht Hw Hs.
  pose proof (provider_destination ts o t s Ho Ht Hw Hs) as Hd.
  unfold extractTaskGroupName, Js.or_else in *.
  destruct (group t) as [[n|[i|]]|].
  - intros Hne%truthy_true. by rewrite Hne in *.
  - intros Hne%truthy_true. by rewrite Hne in *.
  - done.
  - done.
Qed.

Lemma group_resolution_witness :
  extractTaskGroupName Samples.lint = Some "test"
  ∧ inSubGroup Scenario.organized "npm" "test" Samples.lint.
Proof.
  apply (group_resolution Scenario.snapshot Scenario.organized
           Samples.lint "npm").
  - vm_compute. reflexivity.
  - apply list_elem_of_here.
  - reflexivity.
  - reflexivity.
  - discriminate.
Defined.

(** C10. The routing of an empty group string fails on a source name
    inherited from [Object.prototype]: the task of source "constructor"
    and group "" is provider-routed and has no group id, but the call
    throws at [sourceGroups[source].tasks], so the task is in no direct
    list. *)
Theorem blank_group_throws_on_inherited_source :
  isWorkspaceTask Samples.constructorBlankGroup = false
  ∧ group Samples.constructorBlankGroup = Some (GroupPlain "")
  ∧ extractTaskGroupName Samples.constructorBlankGroup = None
  ∧ organizeTasks [Samples.constructorBlankGroup] = None.
Proof. repeat split; by vm_compute. Qed.

(** * Running detection on three tasks *)

(** C9, as stated, fails: with executions referencing A and C, the entry of
    C is running, so the map is not [{A: running, B: idle, C: idle}]. *)
Lemma running_detection_C_not_idle :
  createTaskStatuses [Samples.taskA; Samples.taskB; Samples.taskC]
    [mkTaskExecution Samples.taskA; mkTaskExecution Samples.taskC]
  ≠ {[ "A" := yellow; "B" := grey; "C" := grey ]}.
Proof.
  intros H. apply (f_equal (fun m => m !! "C")) in H.
  vm_compute in H. discriminate H.
Qed.

(** C9, amended. For three tasks named A, B and C, whatever their other
    fields, and executions referencing A and C by name, the map is
    [{A: running, B: idle, C: running}]. *)
Theorem running_detection sa ga da sb gb db sc gc dc sa' ga' da' sc' gc' dc' :
  createTaskStatuses
    [mkTask "A" sa ga da; mkTask "B" sb gb db; mkTask "C" sc gc dc]
    [mkTaskExecution (mkTask "A" sa' ga' da');
     mkTaskExecution (mkTask "C" sc' gc' dc')]
  = {[ "A" := yellow; "B" := grey; "C" := yellow ]}.
Proof. by vm_compute. Qed.

(** * Further properties of the classifier *)

(** X1. Whenever [organizeTasks] returns, every task held by the entry of
    a source is an input task of that source: a task of the direct list has
    no group name, a task of a sub-group has the name of the sub-group as
    group name. *)
Theorem sourceGroups_sound
    (ts : list Task) (o : OrganizedTasks) (s : string) (g : TaskGroup) :
  organizeTasks ts = Some o → sourceGroups o !! s = Some g →
  (∀ t, t ∈ tasks g →
        t ∈ ts ∧ source t = Some s ∧ extractTaskGroupName t = None)
  ∧ (∀ n l t, subGroups g !! n = Some l → t ∈ l →
        t ∈ ts ∧ source t = Some s ∧ extractTaskGroupName t = Some n).
Proof.
  intros Ho Hg. split.
  - intros t Ht.
    assert (Hin : inDirectTasks o s t) by (exists g; done).
    apply elem_of_bucket_InSource in Hin.
    apply (elem_of_bucket_organizeTasks ts o _ t Ho) in Hin as [Hts Hb].
    apply bucketOf_InSource_inv in Hb. naive_solver.
  - intros n l t Hl Ht.
    assert (Hin : inSubGroup o s n t) by (exists g, l; done).
    apply elem_of_bucket_InSubGroup in Hin.
    apply (elem_of_bucket_organizeTasks ts o _ t Ho) in Hin as [Hts Hb].
    apply bucketOf_InSubGroup_inv in Hb. naive_solver.
Qed.

Lemma sourceGroups_sound_witness :
  (∀ t, t ∈ tasks Scenario.npmEntry →
        t ∈ Scenario.snapshot ∧ source t = Some "npm"
        ∧ extractTaskGroupName t = None)
  ∧ (∀ n l t, subGroups Scenario.npmEntry !! n = Some l → t ∈ l →
        t ∈ Scenario.snapshot ∧ source t = Some "npm"
        ∧ extractTaskGroupName t = Some n).
Proof.
  apply (sourceGroups_sound Scenario.snapshot Scenario.organized "npm"
           Scenario.npmEntry).
  - vm_compute. reflexivity.
  - vm_compute. reflexivity.
Defined.

(** X2. Whenever [organizeTasks] returns, an entry of the result is never
    empty: each of its sub-groups holds at least one task and has a
    non-empty name, the entry holds at least one task, and the filter of
    the view template keeps it. *)
Theorem sourceGroups_populated
    (ts : list Task) (o : OrganizedTasks) (s : string) (g : TaskGroup) :
  organizeTasks ts = Some o → sourceGroups o !! s = Some g →
  (∀ n l, subGroups g !! n = Some l → l ≠ [] ∧ n ≠ "")
  ∧ groupTasks g ≠ []
  ∧ HtmlTemplate.isRendered g = true.
Proof.
  intros Ho Hg.
  destruct (organizeTasks_populated ts o s g Ho Hg) as [Hsub Hany].
  split; [|split].
  - intros n l Hl. split; [by apply (Hsub n l)|]. intros ->.
    destruct l as [|t l]; [by apply (Hsub "" [])|].
    apply (no_blank_subGroup ts o s t Ho). exists g, (t :: l).
    split; [done|]. split; [done|]. apply list_elem_of_here.
  - destruct Hany as [Ht|Hsg].
    + unfold groupTasks. destruct (tasks g); done.
    + apply map_choose in Hsg as (n & l & Hl).
      pose proof (Hsub n l Hl) as Hne. destruct l as [|t l]; [done|].
      assert (Hin : t ∈ groupTasks g).
      { unfold groupTasks. apply elem_of_app. right.
        apply elem_of_flatten. exists n, (t :: l). split; [done|].
        apply list_elem_of_here. }
      intros Hnil. rewrite Hnil in Hin. by apply elem_of_nil in Hin.
  - unfold HtmlTemplate.isRendered. apply orb_true_iff.
    destruct Hany as [Ht|Hsg].
    + left. apply bool_decide_eq_true. destruct (tasks g); simpl; [done|lia].
    + right. apply bool_decide_eq_true.
      apply map_size_non_empty_iff in Hsg. lia.
Qed.

Lemma sourceGroups_populated_witness :
  (∀ n l, subGroups Scenario.npmEntry !! n = Some l → l ≠ [] ∧ n ≠ "")
  ∧ groupTasks Scenario.npmEntry ≠ []
  ∧ HtmlTemplate.isRendered Scenario.npmEntry = true.
Proof.
  apply (sourceGroups_populated Scenario.snapshot Scenario.organized "npm"
           Scenario.npmEntry).
  - vm_compute. reflexivity.
  - vm_compute. reflexivity.
Defined.

(** X3. Whenever [organizeTasks] returns, the fallback key "Unknown" has
    not been applied: the key "Unknown" is present exactly when an input
    task has the literal source "Unknown"; and neither the empty string nor
    "Workspace" is a key. *)
Theorem Unknown_key_only_literal (ts : list Task) (o : OrganizedTasks) :
  organizeTasks ts = Some o →
  ("Unknown" ∈ dom (sourceGroups o)
     ↔ ∃ t, t ∈ ts ∧ source t = Some "Unknown")
  ∧ ("" ∉ dom (sourceGroups o))
  ∧ ("Workspace" ∉ dom (sourceGroups o)).
Proof.
  intros Ho. rewrite !(elem_of_dom_sourceGroups ts o _ Ho). split; [|split].
  - split.
    + intros (t & Ht & _ & Hs). eauto.
    + intros (t & Ht & Hs). exists t. split; [done|]. split; [|done].
      apply isWorkspaceTask_false. exists "Unknown". by rewrite Hs.
  - intros (t & _ & Hw & Hs).
    apply isWorkspaceTask_false in Hw as (s & Hs' & Hne & _). congruence.
  - intros (t & _ & Hw & Hs).
    apply isWorkspaceTask_false in Hw as (s & Hs' & _ & Hne). congruence.
Qed.

Lemma Unknown_key_only_literal_witness :
  ("Unknown" ∈ dom (sourceGroups Scenario.organized)
     ↔ ∃ t, t ∈ Scenario.snapshot ∧ source t = Some "Unknown")
  ∧ ("" ∉ dom (sourceGroups Scenario.organized))
  ∧ ("Workspace" ∉ dom (sourceGroups Scenario.organized)).
Proof.
  apply (Unknown_key_only_literal Scenario.snapshot Scenario.organized).
  vm_compute. reflexivity.
Defined.

(** X4. Organizing a snapshot extended at its end only appends: when
    [organizeTasks] returns on [ts1 ++ ts2], it returns on [ts1] and on
    [ts2], every list of the result is the list for [ts1] followed by the
    list for [ts2], and the keys are those of both. *)
Theorem organizeTasks_app (ts1 ts2 : list Task) (o : OrganizedTasks) :
  organizeTasks (ts1 ++ ts2) = Some o →
  ∃ o1 o2,
    organizeTasks ts1 = Some o1 ∧ organizeTasks ts2 = Some o2
    ∧ (∀ b, bucket o b = bucket o1 b ++ bucket o2 b)
    ∧ dom (sourceGroups o) = dom (sourceGroups o1) ∪ dom (sourceGroups o2).
Proof.
  intros Ho.
  assert (Hpart : ∀ ts, (∀ t, t ∈ ts → t ∈ ts1 ++ ts2) →
                        ∃ o', organizeTasks ts = Some o').
  { intros ts Hts. destruct (organizeTasks ts) as [o'|] eqn:E; [eauto|].
    apply organizeTasks_None in E as (t & Ht & Hbad).
    assert (organizeTasks (ts1 ++ ts2) = None) as Hn.
    { apply organizeTasks_None. eauto. }
    congruence. }
  destruct (Hpart ts1) as [o1 Ho1]; [set_solver|].
  destruct (Hpart ts2) as [o2 Ho2]; [set_solver|].
  exists o1, o2. split; [done|]. split; [done|]. split.
  - intros b.
    by rewrite (bucket_organizeTasks _ o b Ho),
      (bucket_organizeTasks _ o1 b Ho1), (bucket_organizeTasks _ o2 b Ho2),
      filter_app.
  - rewrite (dom_organizeTasks _ o Ho), (dom_organizeTasks _ o1 Ho1),
      (dom_organizeTasks _ o2 Ho2), filter_app, fmap_app.
    apply list_to_set_app_L.
Qed.

Lemma organizeTasks_app_witness :
  ∃ o1 o2,
    organizeTasks [Samples.lint] = Some o1
    ∧ organizeTasks [Samples.compile; Samples.dev] = Some o2
    ∧ (∀ b, bucket Scenario.organized b = bucket o1 b ++ bucket o2 b)
    ∧ dom (sourceGroups Scenario.organized)
      = dom (sourceGroups o1) ∪ dom (sourceGroups o2).
Proof.
  apply (organizeTasks_app [Samples.lint] [Samples.compile; Samples.dev]
           Scenario.organized).
  vm_compute. reflexivity.
Defined.

(** X5. The counts of the source header, whenever [organizeTasks]
    returns: the count shown beside the source (direct tasks plus number of
    sub-groups) never exceeds the number of tasks of the entry, which is
    the number of input tasks of that source. *)
Theorem source_counts
    (ts : list Task) (o : OrganizedTasks) (s : string) (g : TaskGroup) :
  organizeTasks ts = Some o → sourceGroups o !! s = Some g →
  (HtmlTemplate.totalCount g ≤ HtmlTemplate.totalTaskCount g)%nat
  ∧ HtmlTemplate.totalTaskCount g
    = length (filter (fun t => source t = Some s) ts).
Proof.
  intros Ho Hg.
  destruct (organizeTasks_populated ts o s g Ho Hg) as [Hsub _].
  unfold HtmlTemplate.totalCount, HtmlTemplate.totalTaskCount. split.
  - rewrite length_app. pose proof (size_le_flatten (subGroups g) Hsub). lia.
  - rewrite <- (entry_source_filter ts o s g Ho Hg).
    unfold groupTasks, flatten. by rewrite list_fmap_id.
Qed.

Lemma source_counts_witness :
  (HtmlTemplate.totalCount Scenario.npmEntry
     ≤ HtmlTemplate.totalTaskCount Scenario.npmEntry)%nat
  ∧ HtmlTemplate.totalTaskCount Scenario.npmEntry
    = length (filter (fun t => source t = Some "npm") Scenario.snapshot).
Proof.
  apply (source_counts Scenario.snapshot Scenario.organized "npm"
           Scenario.npmEntry).
  - vm_compute. reflexivity.
  - vm_compute. reflexivity.
Defined.

(** X18. The error behaviour of the classifier: [organizeTasks] throws
    exactly when some input task is routed to the provider path and its
    source key, or its group name, is a property name inherited from
    [Object.prototype]; on every other list it returns. *)
Theorem organizeTasks_throws_iff (ts : list Task) :
  organizeTasks ts = None
  ↔ ∃ t, t ∈ ts ∧ isWorkspaceTask t = false
         ∧ (JsObject.inherited (sourceKey t) = true
            ∨ ∃ n, extractTaskGroupName t = Some n
                   ∧ JsObject.inherited n = true).
Proof.
  rewrite organizeTasks_None. unfold touchesInherited.
  split; intros (t & Ht & H); exists t; (split; [done|]).
  - apply andb_true_iff in H as [Hw%negb_true_iff H]. split; [done|].
    apply orb_true_iff in H as [H|H]; [by left|right].
    destruct (extractTaskGroupName t) as [n|]; [|done]. eauto.
  - destruct H as (Hw & H). rewrite Hw. simpl. apply orb_true_iff.
    destruct H as [H|(n & -> & H)]; [by left|by right].
Qed.

(** X19. Partition completeness whenever [organizeTasks] returns: the
    lists of the result, taken together, hold the input tasks with the same
    multiplicities; the count [|workspaceTasks| + Σ over sourceGroups of
    (|tasks| + Σ over subGroups of |list|)] is the length of the input; and
    a task value is held at one destination only. *)
Theorem organizeTasks_returns_partition
    (ts : list Task) (o : OrganizedTasks) :
  organizeTasks ts = Some o →
  allTasks o ≡ₚ ts
  ∧ taskCount o = length ts
  ∧ ∀ t b b', t ∈ bucket o b → t ∈ bucket o b' → b = b'.
Proof.
  intros Ho. pose proof (allTasks_organizeTasks ts o Ho) as Hperm.
  split; [exact Hperm|]. split.
  - by rewrite taskCount_length, Hperm.
  - intros t b b' Hb Hb'.
    apply (elem_of_bucket_organizeTasks ts o _ t Ho) in Hb as [_ <-].
    by apply (elem_of_bucket_organizeTasks ts o _ t Ho) in Hb' as [_ <-].
Qed.

Lemma organizeTasks_returns_partition_witness :
  allTasks Scenario.organized ≡ₚ Scenario.snapshot
  ∧ taskCount Scenario.organized = length Scenario.snapshot
  ∧ ∀ t b b', t ∈ bucket Scenario.organized b →
              t ∈ bucket Scenario.organized b' → b = b'.
Proof.
  apply (organizeTasks_returns_partition Scenario.snapshot
           Scenario.organized).
  vm_compute. reflexivity.
Defined.

(** X20. Whenever [organizeTasks] returns, the keys of [sourceGroups] are
    exactly the source values of the tasks routed to the provider path,
    whatever list of the entry the task falls into, and none of them is a
    name inherited from [Object.prototype]. *)
Theorem sourceGroups_keys (ts : list Task) (o : OrganizedTasks) :
  organizeTasks ts = Some o →
  dom (sourceGroups o)
  = list_to_set
      (sourceKey <$> filter (fun t => isWorkspaceTask t = false) ts)
  ∧ (∀ s, s ∈ dom (sourceGroups o)
          ↔ ∃ t, t ∈ ts ∧ isWorkspaceTask t = false ∧ source t = Some s)
  ∧ (∀ s, s ∈ dom (sourceGroups o) → JsObject.inherited s = false).
Proof.
  intros Ho. split; [by apply dom_organizeTasks|].
  split; [intros s; by apply elem_of_dom_sourceGroups|].
  by destruct (organizeTasks_noInheritedKey ts o Ho).
Qed.

Lemma sourceGroups_keys_witness :
  dom (sourceGroups Scenario.organized)
  = list_to_set
      (sourceKey
         <$> filter (fun t => isWorkspaceTask t = false) Scenario.snapshot)
  ∧ (∀ s, s ∈ dom (sourceGroups Scenario.organized)
          ↔ ∃ t, t ∈ Scenario.snapshot ∧ isWorkspaceTask t = false
                 ∧ source t = Some s)
  ∧ (∀ s, s ∈ dom (sourceGroups Scenario.organized) →
          JsObject.inherited s = false).
Proof.
  apply (sourceGroups_keys Scenario.snapshot Scenario.organized).
  vm_compute. reflexivity.
Defined.

(** X22. Empty group strings, whenever [organizeTasks] returns: every
    provider-routed input task whose group is the empty plain string has no
    group id and is in the direct list of its source, not in a sub-group
    keyed by the empty string; and every provider-routed input task whose
    group is a structured value with the empty string as id gets the id
    "build" and is in the sub-group "build" of its source. *)
Theorem blank_group_routing (ts : list Task) (o : OrganizedTasks) :
  organizeTasks ts = Some o →
  (∀ t s, t ∈ ts → isWorkspaceTask t = false → source t = Some s →
          group t = Some (GroupPlain "") →
          extractTaskGroupName t = None ∧ inDirectTasks o s t
          ∧ ¬ inSubGroup o s "" t)
  ∧ (∀ t s, t ∈ ts → isWorkspaceTask t = false → source t = Some s →
            group t = Some (GroupStructured (Some "")) →
            extractTaskGroupName t = Some "build"
            ∧ inSubGroup o s "build" t).
Proof.
  intros Ho. split.
  - intros t s Ht Hw Hs Hg.
    pose proof (provider_destination ts o t s Ho Ht Hw Hs) as Hd.
    assert (He : extractTaskGroupName t = None).
    { unfold extractTaskGroupName. by rewrite Hg. }
    rewrite He in Hd. split; [done|]. split; [done|].
    by apply (no_blank_subGroup ts).
  - intros t s Ht Hw Hs Hg.
    pose proof (provider_destination ts o t s Ho Ht Hw Hs) as Hd.
    assert (He : extractTaskGroupName t = Some "build").
    { unfold extractTaskGroupName. by rewrite Hg. }
    by rewrite He in Hd.
Qed.

Lemma blank_group_routing_witness :
  (∀ t s, t ∈ [Samples.blankGroup; Samples.blankGroupId] →
          isWorkspaceTask t = false → source t = Some s →
          group t = Some (GroupPlain "") →
          extractTaskGroupName t = None
          ∧ inDirectTasks
              (mkOrganizedTasks []
                 {[ "npm" := mkTaskGroup [Samples.blankGroup]
                               {[ "build" := [Samples.blankGroupId] ]} ]})
              s t
          ∧ ¬ inSubGroup
                (mkOrganizedTasks []
                   {[ "npm" := mkTaskGroup [Samples.blankGroup]
                                 {[ "build" := [Samples.blankGroupId] ]} ]})
                s "" t)
  ∧ (∀ t s, t ∈ [Samples.blankGroup; Samples.blankGroupId] →
            isWorkspaceTask t = false → source t = Some s →
            group t = Some (GroupStructured (Some "")) →
            extractTaskGroupName t = Some "build"
            ∧ inSubGroup
                (mkOrganizedTasks []
                   {[ "npm" := mkTaskGroup [Samples.blankGroup]
                                 {[ "build" := [Samples.blankGroupId] ]} ]})
                s "build" t).
Proof.
  apply (blank_group_routing [Samples.blankGroup; Samples.blankGroupId]).
  vm_compute. reflexivity.
Defined.

(** * Further properties of the status deriver *)

Lemma isRunning_names es es' t t' :
  name t = name t' →
  (∀ n, n ∈ (name ∘ task) <$> es ↔ n ∈ (name ∘ task) <$> es') →
  isRunning es t = isRunning es' t'.
Proof.
  intros Hn Hes.
  assert (Hiff : isRunning es t = true ↔ isRunning es' t' = true).
  { rewrite !isRunning_true. specialize (Hes (name t)).
    rewrite !list_elem_of_fmap in Hes. rewrite <- Hn.
    split; intros (e & He & Hne).
    - destruct (proj1 Hes) as (e' & ? & ?); [by exists e|]. by exists e'.
    - destruct (proj2 Hes) as (e' & ? & ?); [by exists e|]. by exists e'. }
  destruct (isRunning es t), (isRunning es' t'); naive_solver.
Qed.

(** X6. The status map depends on the task list only through the set of
    task names, and on the execution list only through the set of names of
    executing tasks: order and repetitions in either list are without
    effect. *)
Theorem createTaskStatuses_names_only
    (ts ts' : list Task) (es es' : list TaskExecution) :
  (∀ n, n ∈ name <$> ts ↔ n ∈ name <$> ts') →
  (∀ n, n ∈ (name ∘ task) <$> es ↔ n ∈ (name ∘ task) <$> es') →
  createTaskStatuses ts es = createTaskStatuses ts' es'.
Proof.
  intros Hts Hes.
  assert (Hone : ∀ ts ts' es es' n st,
    (∀ n, n ∈ name <$> ts ↔ n ∈ name <$> ts') →
    (∀ n, n ∈ (name ∘ task) <$> es ↔ n ∈ (name ∘ task) <$> es') →
    createTaskStatuses ts es !! n = Some st →
    createTaskStatuses ts' es' !! n = Some st).
  { clear. intros ts ts' es es' n st Hts Hes.
    rewrite !lookup_createTaskStatuses_Some.
    intros (Hp & t & Ht & Hn & ->). split; [done|].
    assert (Hin : n ∈ name <$> ts').
    { apply Hts, list_elem_of_fmap. by exists t. }
    apply list_elem_of_fmap in Hin as (t' & Hn' & Ht').
    exists t'. split; [done|]. split; [done|].
    unfold statusOf. rewrite (isRunning_names es es' t t'); [done| |done].
    congruence. }
  apply map_eq. intros n. apply option_eq. intros st. split.
  - by apply Hone.
  - apply Hone; intros n'; symmetry; [apply Hts|apply Hes].
Qed.

Lemma createTaskStatuses_names_only_witness :
  createTaskStatuses [Samples.taskA; Samples.taskB]
    [mkTaskExecution Samples.taskA]
  = createTaskStatuses [Samples.taskB; Samples.taskA; Samples.taskA]
      [mkTaskExecution Samples.taskA; mkTaskExecution Samples.taskA].
Proof.
  apply createTaskStatuses_names_only.
  - intros n. simpl. set_solver.
  - intros n. simpl. set_solver.
Defined.

(** X21. The entries of the status map: a task of the input whose name is
    not "__proto__" is mapped to running exactly when some execution
    references a task of the same name, and to idle exactly when none
    does; no other tag is a value of the map; the keys are the input names
    other than "__proto__", which is never a key; with no task the map is
    empty. *)
Theorem createTaskStatuses_entries
    (ts : list Task) (es : list TaskExecution) :
  (∀ t, t ∈ ts → name t ≠ "__proto__" →
     (createTaskStatuses ts es !! name t = Some yellow
        ↔ ∃ e, e ∈ es ∧ name (task e) = name t)
     ∧ (createTaskStatuses ts es !! name t = Some grey
        ↔ ¬ ∃ e, e ∈ es ∧ name (task e) = name t))
  ∧ (∀ n st, createTaskStatuses ts es !! n = Some st →
             st = yellow ∨ st = grey)
  ∧ dom (createTaskStatuses ts es)
    = list_to_set (filter (fun n => n ≠ "__proto__") (name <$> ts))
  ∧ createTaskStatuses ts es !! "__proto__" = None
  ∧ createTaskStatuses [] es = ∅.
Proof.
  split; [|split; [|split; [|split]]].
  - intros t Ht Hp. rewrite (lookup_createTaskStatuses ts es t Ht Hp).
    unfold statusOf. rewrite <- isRunning_true.
    destruct (isRunning es t); naive_solver.
  - intros n st (_ & t & _ & _ & ->)%lookup_createTaskStatuses_Some.
    unfold statusOf. destruct (isRunning es t); auto.
  - apply dom_createTaskStatuses.
  - apply lookup_createTaskStatuses_proto.
  - done.
Qed.

(** X7. On the refresh path the fallback of [renderTaskItem] is not taken
    for a task of the list the statuses are derived from: [status] is the
    entry of the task, or the inherited prototype for the name
    "__proto__"; the colour is that of running exactly when an execution
    has the name of the task and the name is not "__proto__", and that of
    idle otherwise. *)
Theorem rendered_status
    (ts : list Task) (es : list TaskExecution) (t : Task) :
  t ∈ ts →
  JsObject.get (createTaskStatuses ts es) (name t) ≠ JsObject.Undefined
  ∧ HtmlTemplate.status (createTaskStatuses ts es) t
    = (if decide (name t = "__proto__") then HtmlTemplate.NotAStatus
       else HtmlTemplate.StatusTag (statusOf es t))
  ∧ HtmlTemplate.statusColor
      (HtmlTemplate.status (createTaskStatuses ts es) t)
    = (if isRunning es t && negb (bool_decide (name t = "__proto__"))
       then "#eab308" else "#6b7280").
Proof.
  intros Ht. unfold HtmlTemplate.status, JsObject.get.
  destruct (decide (name t = "__proto__")) as [Hp|Hp].
  - rewrite Hp, lookup_createTaskStatuses_proto.
    rewrite bool_decide_eq_true_2 by done. rewrite andb_false_r.
    by vm_compute.
  - rewrite (lookup_createTaskStatuses ts es t Ht Hp).
    rewrite bool_decide_eq_false_2 by done. rewrite andb_true_r.
    split; [done|]. split; [done|].
    unfold statusOf. by destruct (isRunning es t).
Qed.

Lemma rendered_status_witness :
  JsObject.get (createTaskStatuses Scenario.snapshot Scenario.executions)
    (name Samples.lint) ≠ JsObject.Undefined
  ∧ HtmlTemplate.status
      (createTaskStatuses Scenario.snapshot Scenario.executions) Samples.lint
    = (if decide (name Samples.lint = "__proto__")
       then HtmlTemplate.NotAStatus
       else HtmlTemplate.StatusTag (statusOf Scenario.executions Samples.lint))
  ∧ HtmlTemplate.statusColor
      (HtmlTemplate.status
         (createTaskStatuses Scenario.snapshot Scenario.executions)
         Samples.lint)
    = (if isRunning Scenario.executions Samples.lint
          && negb (bool_decide (name Samples.lint = "__proto__"))
       then "#eab308" else "#6b7280").
Proof.
  apply (rendered_status Scenario.snapshot Scenario.executions Samples.lint).
  apply list_elem_of_here.
Defined.

(** * Properties of the view template *)

(** X8. A task item carries the prefix of its source exactly when the
    classifier routes the task to the provider path, and the prefix is the
    key of its source entry. *)
Theorem displayName_prefix (t : Task) :
  HtmlTemplate.displayName t
  = if isWorkspaceTask t then name t
    else sourceKey t +:+ ": " +:+ name t.
Proof.
  unfold HtmlTemplate.displayName, isWorkspaceTask, sourceKey, Js.or_else,
    Js.strict_eq, Js.truthy_opt.
  destruct (source t) as [s|]; [|done].
  destruct (Js.truthy s) eqn:Ht; simpl.
  - destruct (decide (s = "Workspace")) as [->|Hne].
    + by rewrite !bool_decide_eq_true_2.
    + rewrite !bool_decide_eq_false_2; [done|congruence|done].
  - by rewrite orb_true_r.
Qed.

Lemma taskGroupName_extract t :
  HtmlTemplate.taskGroupName t = extractTaskGroupName t.
Proof.
  unfold HtmlTemplate.taskGroupName, HtmlTemplate.groupTruthy,
    extractTaskGroupName.
  destruct (group t) as [[s|id]|]; [|done..].
  by destruct (Js.truthy s).
Qed.

(** What the grouping step returns when it returns. *)
Lemma groupWorkspaceStep_Some acc t acc' :
  HtmlTemplate.groupWorkspaceStep acc t = Some acc' →
  match extractTaskGroupName t with
  | Some n =>
      acc' = HtmlTemplate.mkWorkspaceGrouping
               (<[n := push (default []
                               (HtmlTemplate.workspaceGroups acc !! n)) t]>
                  (HtmlTemplate.workspaceGroups acc))
               (HtmlTemplate.ungroupedWorkspaceTasks acc)
      ∧ ¬ (HtmlTemplate.workspaceGroups acc !! n = None
           ∧ JsObject.inherited n = true)
  | None =>
      acc' = HtmlTemplate.mkWorkspaceGrouping
               (HtmlTemplate.workspaceGroups acc)
               (push (HtmlTemplate.ungroupedWorkspaceTasks acc) t)
  end.
Proof.
  unfold HtmlTemplate.groupWorkspaceStep. rewrite taskGroupName_extract.
  destruct (extractTaskGroupName t) as [n|] eqn:E; [|naive_solver].
  rewrite (extractTaskGroupName_truthy t n E), pushAt_initKey.
  case_decide; [done|]. simpl. naive_solver.
Qed.

(** A property of the empty grouping that every returning step keeps holds
    of every grouping. *)
Lemma groupWorkspaceTasks_ind
    (P : list Task → HtmlTemplate.WorkspaceGrouping → Prop) :
  P [] (HtmlTemplate.mkWorkspaceGrouping ∅ []) →
  (∀ ws r t r', HtmlTemplate.groupWorkspaceTasks ws = Some r → P ws r →
                HtmlTemplate.groupWorkspaceStep r t = Some r' →
                P (ws ++ [t]) r') →
  ∀ ws r, HtmlTemplate.groupWorkspaceTasks ws = Some r → P ws r.
Proof.
  intros Hinit Hstep ws.
  induction ws as [|t ws IH] using rev_ind; intros r Hr.
  - by injection Hr as <-.
  - unfold HtmlTemplate.groupWorkspaceTasks in *.
    rewrite forEach_snoc in Hr.
    destruct (forEach HtmlTemplate.groupWorkspaceStep _ ws) as [r0|] eqn:E;
      simpl in Hr; [|done].
    eauto.
Qed.

(** X9. The workspace grouping of the view, whenever it returns: the
    ungrouped list is the workspace list restricted to the tasks without
    group name; a group is present under a name exactly when some workspace
    task resolves to that name, and is then the workspace list restricted
    to these tasks, in order.  The name is resolved as
    [extractTaskGroupName] does. *)
Theorem groupWorkspaceTasks_spec
    (ws : list Task) (r : HtmlTemplate.WorkspaceGrouping) :
  HtmlTemplate.groupWorkspaceTasks ws = Some r →
  HtmlTemplate.ungroupedWorkspaceTasks r
  = filter (fun t => extractTaskGroupName t = None) ws
  ∧ ∀ n,
      HtmlTemplate.workspaceGroups r !! n
      = match filter (fun t => extractTaskGroupName t = Some n) ws with
        | [] => None
        | t :: l => Some (t :: l)
        end.
Proof.
  revert ws r. apply groupWorkspaceTasks_ind.
  { split; [done|]. intros n. simpl. by rewrite lookup_empty. }
  intros ws r t r' _ [IHu IHg] Hs%groupWorkspaceStep_Some.
  destruct (extractTaskGroupName t) as [n'|] eqn:E.
  - destruct Hs as [-> _].
    cbn [HtmlTemplate.ungroupedWorkspaceTasks HtmlTemplate.workspaceGroups].
    split.
    + rewrite filter_app, filter_cons, filter_nil, E.
      case_decide; [done|]. by rewrite IHu, (right_id [] (++)).
    + intros n. rewrite filter_app, filter_cons, filter_nil, E.
      rewrite lookup_insert, IHg.
      destruct (decide (n' = n)) as [->|Hn]; case_decide; simplify_eq.
      * cbn.
        by destruct (filter (fun t0 => extractTaskGroupName t0 = Some n) ws).
      * by rewrite (right_id [] (++)).
  - subst r'.
    cbn [HtmlTemplate.ungroupedWorkspaceTasks HtmlTemplate.workspaceGroups].
    split.
    + rewrite filter_app, filter_cons, filter_nil, E.
      case_decide; [|done]. by rewrite IHu.
    + intros n. rewrite filter_app, filter_cons, filter_nil, E.
      case_decide; [done|]. by rewrite IHg, (right_id [] (++)).
Qed.

Lemma groupWorkspaceTasks_spec_witness :
  HtmlTemplate.ungroupedWorkspaceTasks
    (HtmlTemplate.mkWorkspaceGrouping
       {[ "test" := [Samples.lint] ]} [Samples.dev])
  = filter (fun t => extractTaskGroupName t = None)
      [Samples.lint; Samples.dev]
  ∧ ∀ n,
      HtmlTemplate.workspaceGroups
        (HtmlTemplate.mkWorkspaceGrouping
           {[ "test" := [Samples.lint] ]} [Samples.dev]) !! n
      = match filter (fun t => extractTaskGroupName t = Some n)
                [Samples.lint; Samples.dev] with
        | [] => None
        | t :: l => Some (t :: l)
        end.
Proof.
  apply (groupWorkspaceTasks_spec [Samples.lint; Samples.dev]).
  vm_compute. reflexivity.
Defined.

(** X10. The workspace grouping of the view, whenever it returns, loses
    and repeats nothing: the ungrouped list and the group lists together
    hold the workspace tasks with the same multiplicities. *)
Theorem groupWorkspaceTasks_partition
    (ws : list Task) (r : HtmlTemplate.WorkspaceGrouping) :
  HtmlTemplate.groupWorkspaceTasks ws = Some r →
  HtmlTemplate.ungroupedWorkspaceTasks r
  ++ flatten id (HtmlTemplate.workspaceGroups r)
  ≡ₚ ws.
Proof.
  revert ws r.
  apply (groupWorkspaceTasks_ind (fun ws r =>
    HtmlTemplate.ungroupedWorkspaceTasks r
    ++ flatten id (HtmlTemplate.workspaceGroups r) ≡ₚ ws)).
  - unfold flatten; simpl. by rewrite map_to_list_empty.
  - intros ws r t r' _ IH Hs%groupWorkspaceStep_Some. rewrite <- IH.
    destruct (extractTaskGroupName t) as [n|].
    + destruct Hs as [-> _]. simpl.
      rewrite (flatten_insert_default id n [] _ _ t);
        [by rewrite (assoc (++))|done|done].
    + subst r'. unfold push. simpl. solve_Permutation.
Qed.

Lemma groupWorkspaceTasks_partition_witness :
  HtmlTemplate.ungroupedWorkspaceTasks
    (HtmlTemplate.mkWorkspaceGrouping
       {[ "test" := [Samples.lint] ]} [Samples.dev])
  ++ flatten id
       (HtmlTemplate.workspaceGroups
          (HtmlTemplate.mkWorkspaceGrouping
             {[ "test" := [Samples.lint] ]} [Samples.dev]))
  ≡ₚ [Samples.lint; Samples.dev].
Proof.
  apply (groupWorkspaceTasks_partition [Samples.lint; Samples.dev]).
  vm_compute. reflexivity.
Defined.

(** The group names of a grouping are never inherited names. *)
Lemma groupWorkspaceTasks_noInheritedKey ws r :
  HtmlTemplate.groupWorkspaceTasks ws = Some r →
  ∀ n, n ∈ dom (HtmlTemplate.workspaceGroups r) →
       JsObject.inherited n = false.
Proof.
  revert ws r.
  apply (groupWorkspaceTasks_ind (fun _ r =>
    ∀ n, n ∈ dom (HtmlTemplate.workspaceGroups r) →
         JsObject.inherited n = false)).
  - intros n. simpl. by rewrite dom_empty_L, elem_of_empty.
  - intros ws r t r' _ IH Hs%groupWorkspaceStep_Some n.
    destruct (extractTaskGroupName t) as [n'|]; [|subst r'; apply IH].
    destruct Hs as [-> Hn']. simpl.
    rewrite dom_insert_L, elem_of_union, elem_of_singleton.
    intros [-> | Hn]; [|by apply IH].
    destruct (HtmlTemplate.workspaceGroups r !! n') eqn:E.
    + apply IH, elem_of_dom. eauto.
    + destruct (JsObject.inherited n'); naive_solver.
Qed.

(** X23. The error behaviour of the workspace grouping: it throws exactly
    when the group name of some workspace task is a property name inherited
    from [Object.prototype]. *)
Theorem groupWorkspaceTasks_throws_iff (ws : list Task) :
  HtmlTemplate.groupWorkspaceTasks ws = None
  ↔ ∃ t n, t ∈ ws ∧ extractTaskGroupName t = Some n
           ∧ JsObject.inherited n = true.
Proof.
  induction ws as [|t ws IH] using rev_ind.
  - split; [done|]. by intros (t & n & ?%elem_of_nil & _).
  - pose proof (groupWorkspaceTasks_noInheritedKey ws) as Hkeys.
    unfold HtmlTemplate.groupWorkspaceTasks in *. rewrite forEach_snoc.
    setoid_rewrite elem_of_app. setoid_rewrite list_elem_of_singleton.
    destruct (forEach HtmlTemplate.groupWorkspaceStep _ ws) as [r|] eqn:Hr;
      simpl.
    + specialize (Hkeys r eq_refl).
      unfold HtmlTemplate.groupWorkspaceStep. rewrite taskGroupName_extract.
      destruct (extractTaskGroupName t) as [n|] eqn:E.
      * rewrite (extractTaskGroupName_truthy t n E), pushAt_initKey.
        case_decide as Hd.
        -- split; [|done]. intros _. exists t, n. naive_solver.
        -- simpl. split; [done|].
           intros (t' & n' & [Ht' | ->] & He & Hi).
           ++ assert (Some r = None) as Hn by (apply IH; eauto).
              discriminate Hn.
           ++ assert (n' = n) as -> by congruence.
              exfalso. apply Hd. split; [|done].
              apply eq_None_not_Some. intros Hsome%elem_of_dom%Hkeys.
              congruence.
      * split; [done|].
        intros (t' & n' & [Ht' | ->] & He & Hi); [|congruence].
        assert (Some r = None) as Hn by (apply IH; eauto).
        discriminate Hn.
    + split; [|done]. intros _.
      destruct (proj1 IH) as (t' & n' & Ht' & He & Hi); [done|].
      exists t', n'. eauto.
Qed.

(** * Properties of the provider *)

Section Provider.
Import TaskViewProvider.

Lemma findTaskByName_first pre t post :
  (∀ t', t' ∈ pre → name t' ≠ name t) →
  findTaskByName (pre ++ t :: post) (name t) = Some t.
Proof.
  unfold findTaskByName. induction pre as [|t0 pre IH]; intros Hpre; simpl.
  - by rewrite bool_decide_eq_true_2.
  - rewrite bool_decide_eq_false_2 by (apply Hpre, list_elem_of_here).
    apply IH. intros t' Ht'. by apply Hpre, list_elem_of_further.
Qed.

Lemma findTaskByName_None fetched n :
  (∀ t, t ∈ fetched → name t ≠ n) → findTaskByName fetched n = None.
Proof.
  unfold findTaskByName. induction fetched as [|t0 l IH]; intros Hl; simpl.
  - done.
  - rewrite bool_decide_eq_false_2 by (apply Hl, list_elem_of_here).
    apply IH. intros t' Ht'. by apply Hl, list_elem_of_further.
Qed.

(** X11. Running a task by name: with a non-empty name the handler runs
    nothing when no fetched task has that name, and otherwise runs one
    task only, the first of that name in the fetched list. *)
Theorem runTask_first_match (host : Host) (m : WebviewMessage) (n : string) :
  msg_command m = Some "runTask" → msg_name m = Some n → n ≠ "" →
  ((∀ t, t ∈ fetchTasks host → name t ≠ n) →
     handleWebviewMessage host m = [])
  ∧ (∀ pre t post,
       fetchTasks host = pre ++ t :: post → name t = n →
       (∀ t', t' ∈ pre → name t' ≠ n) →
       handleWebviewMessage host m = [ExecuteTask t]).
Proof.
  intros Hc Hn Hne%truthy_true. unfold handleWebviewMessage.
  rewrite Hc, Hn, Hne. simpl. split.
  - intros Hnone. by rewrite findTaskByName_None.
  - intros pre t post -> <- Hpre. by rewrite findTaskByName_first.
Qed.

Lemma runTask_first_match_witness :
  ((∀ t, t ∈ Scenario.snapshot → name t ≠ "compile") →
     handleWebviewMessage Scenario.host
       (mkWebviewMessage (Some "runTask") (Some "compile")
          None None None None None None) = [])
  ∧ (∀ pre t post,
       Scenario.snapshot = pre ++ t :: post → name t = "compile" →
       (∀ t', t' ∈ pre → name t' ≠ "compile") →
       handleWebviewMessage Scenario.host
         (mkWebviewMessage (Some "runTask") (Some "compile")
            None None None None None None) = [ExecuteTask t]).
Proof.
  apply (runTask_first_match Scenario.host
           (mkWebviewMessage (Some "runTask") (Some "compile")
              None None None None None None) "compile").
  - reflexivity.
  - reflexivity.
  - discriminate.
Defined.



(** X13. The selection of [runSourceGroup] agrees with the classifier:
    whenever [organizeTasks] returns, for a key of [sourceGroups] it
    selects, in input order, the tasks held by the entry of that key. *)
Theorem runSourceGroup_selects_entry
    (ts : list Task) (o : OrganizedTasks) (s : string) (g : TaskGroup) :
  organizeTasks ts = Some o → sourceGroups o !! s = Some g →
  getTasksForGroup ts (Some "runSourceGroup") s ≡ₚ groupTasks g
  ∧ getTasksForGroup ts (Some "runSourceGroup") s `sublist_of` ts.
Proof.
  intros Ho Hg.
  assert (Heq : getTasksForGroup ts (Some "runSourceGroup") s
                = filter (fun t => source t = Some s) ts) by done.
  rewrite Heq. split.
  - symmetry. by apply (entry_source_filter ts o).
  - apply sublist_filter.
Qed.

Lemma runSourceGroup_selects_entry_witness :
  getTasksForGroup Scenario.snapshot (Some "runSourceGroup") "npm"
  ≡ₚ groupTasks Scenario.npmEntry
  ∧ getTasksForGroup Scenario.snapshot (Some "runSourceGroup") "npm"
    `sublist_of` Scenario.snapshot.
Proof.
  apply (runSourceGroup_selects_entry Scenario.snapshot Scenario.organized
           "npm" Scenario.npmEntry).
  - vm_compute. reflexivity.
  - vm_compute. reflexivity.
Defined.

Lemma filter_sublist_weaken (P Q : Task → Prop)
    `{!∀ t, Decision (P t)} `{!∀ t, Decision (Q t)} (l : list Task) :
  (∀ t, P t → Q t) → filter P l `sublist_of` filter Q l.
Proof.
  intros HPQ. induction l as [|t l IH]; [done|].
  rewrite !filter_cons. destruct (decide (P t)) as [HP|HP].
  - rewrite decide_True by auto. by apply sublist_skip.
  - destruct (decide (Q t)); [by apply sublist_cons|done].
Qed.

(** X14. Whatever the command, the selected tasks are fetched tasks in
    fetched order, none more often than fetched; the selection of [runSubGroup] contains
    that of [runSourceGroup] for the same name; a command that is none of
    the three group commands selects nothing. *)
Theorem getTasksForGroup_selection
    (fetched : list Task) (command : option string) (n : string) :
  getTasksForGroup fetched command n `sublist_of` fetched
  ∧ getTasksForGroup fetched (Some "runSourceGroup") n
    `sublist_of` getTasksForGroup fetched (Some "runSubGroup") n
  ∧ (command ≠ Some "runGroup" → command ≠ Some "runSubGroup" →
     command ≠ Some "runSourceGroup" →
     getTasksForGroup fetched command n = []).
Proof.
  split; [|split].
  - unfold getTasksForGroup.
    repeat (case_match; [apply sublist_filter|]). apply sublist_nil_l.
  - change (filter (fun t => source t = Some n) fetched
            `sublist_of`
            filter (fun t => definitionType t = Some n ∨ source t = Some n)
              fetched).
    apply filter_sublist_weaken. auto.
  - intros H1 H2 H3. unfold getTasksForGroup, Js.strict_eq.
    by rewrite !bool_decide_eq_false_2.
Qed.

(** X15. The selection of [runGroup] for a non-empty name holds only
    fetched tasks whose group name, as the classifier and the view resolve
    it, is that name; but it leaves out every task whose group is a plain
    string, has no id, or is absent. *)
Theorem runGroup_selection (fetched : list Task) (n : string) :
  n ≠ "" →
  (∀ t, t ∈ getTasksForGroup fetched (Some "runGroup") n →
        t ∈ fetched ∧ extractTaskGroupName t = Some n)
  ∧ (∀ t, (∃ s, group t = Some (GroupPlain s))
          ∨ group t = Some (GroupStructured None) ∨ group t = None →
          t ∉ getTasksForGroup fetched (Some "runGroup") n).
Proof.
  intros Hne%truthy_true.
  assert (Heq : getTasksForGroup fetched (Some "runGroup") n
                = filter (fun t => groupId t = Some n) fetched) by done.
  rewrite Heq. split.
  - intros t [Hid Ht]%list_elem_of_filter. split; [done|].
    unfold groupId in Hid. unfold extractTaskGroupName, Js.or_else.
    destruct (group t) as [[s|[i|]]|]; try done.
    injection Hid as ->. by rewrite Hne.
  - intros t Hg [Hid _]%list_elem_of_filter. unfold groupId in Hid.
    destruct Hg as [[s Hg]|[Hg|Hg]]; by rewrite Hg in Hid.
Qed.

Lemma runGroup_selection_witness :
  (∀ t, t ∈ getTasksForGroup Scenario.snapshot (Some "runGroup") "test" →
        t ∈ Scenario.snapshot ∧ extractTaskGroupName t = Some "test")
  ∧ (∀ t, (∃ s, group t = Some (GroupPlain s))
          ∨ group t = Some (GroupStructured None) ∨ group t = None →
          t ∉ getTasksForGroup Scenario.snapshot (Some "runGroup") "test").
Proof.
  apply (runGroup_selection Scenario.snapshot "test"). discriminate.
Defined.

End Provider.

(** * From a click in the view to the host *)

Section Click.
Import TaskViewProvider WebviewScript.

Lemma isGroupRun_cases command :
  isGroupRun command = true →
  command = Some "runGroup" ∨ command = Some "runSubGroup"
  ∨ command = Some "runSourceGroup".
Proof.
  unfold isGroupRun, Js.strict_eq.
  rewrite !orb_true_iff, !bool_decide_eq_true. tauto.
Qed.

Lemma executeGroupRun_no_name host m :
  msg_name m = None → executeGroupRun host m = [].
Proof. intros H. unfold executeGroupRun. by rewrite H. Qed.

(** X16. A click on a group-run button that carries no [data-task]
    attribute, as the three group-run buttons of the template are written,
    makes the provider run no task: whatever the settings, the shift key
    and the answer to the confirmation, the provider does nothing or only
    shows the confirmation dialog. *)
Theorem group_run_click_runs_nothing
    (settings : HtmlTemplate.TaskViewSettings) (shiftKey : bool)
    (btn : ActionButton) (host : Host) (m : WebviewMessage) :
  data_task btn = None → isGroupRun (data_command btn) = true →
  onActionClick settings shiftKey btn = Some m →
  handleWebviewMessage host m = []
  ∨ ∃ text, handleWebviewMessage host m = [ShowModalDialog text].
Proof.
  intros Htask Hrun Hclick. unfold onActionClick in Hclick.
  rewrite Hrun, Htask in Hclick. simpl in Hclick.
  assert (Hplain : ∀ c, isGroupRun c = true →
    handleWebviewMessage host
      (mkWebviewMessage c None (data_group btn) (data_source btn)
         (data_group_type btn) None None None) = []).
  { intros c Hc. by destruct (isGroupRun_cases c Hc) as [-> | [-> | ->]]. }
  destruct (negb shiftKey && requireConfirmation settings (data_command btn)).
  - injection Hclick as <-. right. unfold handleWebviewMessage. simpl.
    eexists. destruct (Js.strict_eq (dialogResult host) "Yes"); [|done].
    by rewrite executeGroupRun_no_name.
  - destruct (isGroupRun_cases _ Hrun) as [Hc|[Hc|Hc]];
      rewrite Hc in Hclick; simpl in Hclick; injection Hclick as <-;
      left; apply Hplain; done.
Qed.

Lemma group_run_click_runs_nothing_witness :
  handleWebviewMessage Scenario.host
    (mkWebviewMessage (Some "showConfirmation") None None None None
       (Some "Run All Tasks")
       (Some ("Run all tasks in " +:+ dquote +:+ "npm" +:+ dquote +:+ "?"))
       (Some (mkWebviewMessage (Some "runSourceGroup") None None
                (Some "npm") None None None None))) = []
  ∨ ∃ text,
      handleWebviewMessage Scenario.host
        (mkWebviewMessage (Some "showConfirmation") None None None None
           (Some "Run All Tasks")
           (Some ("Run all tasks in " +:+ dquote +:+ "npm" +:+ dquote
                  +:+ "?"))
           (Some (mkWebviewMessage (Some "runSourceGroup") None None
                    (Some "npm") None None None None)))
      = [ShowModalDialog text].
Proof.
  apply (group_run_click_runs_nothing Scenario.settings false
           Scenario.runSourceButton Scenario.host).
  - reflexivity.
  - reflexivity.
  - reflexivity.
Defined.

Lemma executeGroupRun_calls host m call :
  call ∈ executeGroupRun host m →
  ∃ t, call = ExecuteTask t ∧ t ∈ fetchTasks host.
Proof.
  unfold executeGroupRun.
  destruct (msg_name m) as [n|]; [|by intros ?%elem_of_nil].
  destruct (Js.truthy n); [|by intros ?%elem_of_nil].
  intros (t & -> & Ht)%list_elem_of_fmap. exists t. split; [done|].
  unfold getTasksForGroup in Ht.
  repeat (case_match; [by apply list_elem_of_filter in Ht as [_ ?]|]).
  by apply elem_of_nil in Ht.
Qed.

(** X17. Whatever the message, the handler executes only tasks of the
    fetched list and terminates only current executions, and of these only
    executions of a task named as the message says. *)
Theorem handleWebviewMessage_safe
    (host : Host) (m : WebviewMessage) (call : HostCall) :
  call ∈ handleWebviewMessage host m →
  (∀ t, call = ExecuteTask t → t ∈ fetchTasks host)
  ∧ (∀ te, call = Terminate te →
       te ∈ taskExecutions host ∧ msg_name m = Some (name (task te))).
Proof.
  unfold handleWebviewMessage. intros Hcall.
  repeat case_match; simplify_eq;
    repeat match goal with
    | H : _ ∈ [] |- _ => by apply elem_of_nil in H
    | H : _ ∈ [_] |- _ => apply list_elem_of_singleton in H; subst
    | H : _ ∈ _ :: _ |- _ => apply elem_of_cons in H as [->|H]
    | H : _ ∈ executeGroupRun _ _ |- _ =>
        apply executeGroupRun_calls in H as (? & -> & ?)
    | H : _ ∈ Terminate <$> _ |- _ =>
        apply list_elem_of_fmap in H as (? & -> & [? ?]%list_elem_of_filter)
    end;
    try (split; intros; simplify_eq; done).
  split; [|by intros; simplify_eq]. intros t' [= <-].
  match goal with
  | H : findTaskByName _ _ = Some _ |- _ =>
      apply find_some in H as [H _]; by apply list_elem_of_In
  end.
Qed.

Lemma handleWebviewMessage_safe_witness :
  (∀ t, ExecuteTask Samples.compile = ExecuteTask t →
        t ∈ fetchTasks Scenario.host)
  ∧ (∀ te, ExecuteTask Samples.compile = Terminate te →
       te ∈ taskExecutions Scenario.host
       ∧ msg_name (mkWebviewMessage (Some "runTask") (Some "compile")
                     None None None None None None)
         = Some (name (task te))).
Proof.
  apply (handleWebviewMessage_safe Scenario.host
           (mkWebviewMessage (Some "runTask") (Some "compile")
              None None None None None None)
           (ExecuteTask Samples.compile)).
  vm_compute. repeat constructor.
Defined.

End Click.
